(** * dim-wishlist-editor: manifest synchronisation and weapon transformation

    A shallow embedding of the manifest pipeline of the wishlist editor
    (services/manifest: transformer, season, d2ai, the loader, and
    lib/constants), with the properties its design document states about it.

    Conventions of the embedding.
    - A manifest hash is a JavaScript number holding an unsigned 32-bit
      integer; it is an [N] here. Enumeration values, season numbers and
      array indexes are [Z].
    - [String(h)] on a hash is its decimal rendering, [jsString].
    - A definition table [{ [hash: string]: T | undefined }] is a
      [gmap string T]: a missing key and a key bound to [undefined] are
      indistinguishable to every reader in the code ([!def], [def !== undefined]).
      [Object.values] enumerates the bindings; the enumeration order of the
      embedding is the map's own and is not the engine's.
    - An optional field [f?: T] is an [option T]; [a ?? b] is [default b a].
    - A [Set<number>] whose iteration order is observed is a duplicate-free
      list in insertion order.
    - A synchronous call that may throw answers an [Outcome]; a
      promise-returning call is a [Promise], with the part that runs when the
      call is made kept apart from the part that runs later.
    - Record fields carry a short prefix of their record, since several
      records of the source share field names ([hash], [name], [perks]). *)

From Stdlib Require Import ZArith.
From stdpp Require Import gmap strings list fin_maps pretty.

Open Scope string_scope.
Open Scope list_scope.

(** ** lib/constants.ts *)

Module BucketHashes.
Definition KineticWeapons : N := 1498876634.
Definition EnergyWeapons : N := 2465295065.
Definition PowerWeapons : N := 953998645.
End BucketHashes.

Definition WEAPON_BUCKET_HASHES : list N :=
  [BucketHashes.KineticWeapons; BucketHashes.EnergyWeapons; BucketHashes.PowerWeapons].

Module SocketCategoryHashes.
Definition IntrinsicTraits : N := 3956125808.
Definition WeaponPerks : N := 4241085061.
Definition WeaponMods : N := 2685412949.
End SocketCategoryHashes.

Module SocketTypeHashes.
Definition Tracker : N := 1282012138.
End SocketTypeHashes.

Module EmptyPlugCategoryHashes.
Definition EmptySocketPlug : N := 3618704867.
Definition EmptyModSocketPlug : N := 1915962497.
End EmptyPlugCategoryHashes.

Definition EMPTY_PLUG_CATEGORY_HASHES : list N :=
  [EmptyPlugCategoryHashes.EmptySocketPlug; EmptyPlugCategoryHashes.EmptyModSocketPlug].

Module ItemCategoryHashes.
Definition Weapon : N := 1.
Definition Dummies : N := 3109687656.
Definition WeaponModsOriginTraits : N := 1052191891.
End ItemCategoryHashes.

Definition ENHANCED_PERK_TIER_TYPE : Z := 3.

Definition BUNGIE_NET : string := "https://www.bungie.net".

Definition D2AI_MODULE_URL : string :=
  "https://raw.githubusercontent.com/DestinyItemManager/d2ai-module/master".

(** ** JavaScript primitives used by the code *)

(** [String(n)] for a non-negative integer. *)
Definition jsString (n : N) : string := pretty n.

(** [Array.prototype.includes] and [Set.prototype.has]. *)
Definition includes `{EqDecision A} (l : list A) (x : A) : bool :=
  bool_decide (x ∈ l).

(** [Array.prototype.at]: a negative index counts from the end. *)
Definition array_at {A} (l : list A) (i : Z) : option A :=
  if (0 <=? i)%Z then l !! Z.to_nat i
  else if (0 <=? Z.of_nat (length l) + i)%Z
       then l !! Z.to_nat (Z.of_nat (length l) + i)
       else None.

(** [Set.prototype.add] on an insertion-ordered set. *)
Definition set_add (s : list N) (x : N) : list N :=
  if includes s x then s else s ++ [x].

(** [Object.values]. *)
Definition Object_values {A} (t : gmap string A) : list A :=
  (map_to_list t).*2.

(** Truthiness of an optional number ([undefined] and [0] are falsy) and of
    an optional string ([undefined], [null] and the empty string are falsy). *)
Definition truthyN (o : option N) : bool :=
  match o with Some n => negb (n =? 0)%N | None => false end.

Definition truthyS (o : option string) : bool :=
  match o with Some s => negb (String.eqb s "") | None => false end.

(** How a synchronous call completes: with a value, or with an exception
    (here always the [TypeError] of reading a property of [undefined]). *)
Inductive Outcome (A : Type) : Type :=
  | Returned (value : A)
  | Threw.

Arguments Returned {A} value.
Arguments Threw {A}.

Definition returned {A} (o : Outcome A) : option A :=
  match o with Returned value => Some value | Threw => None end.

(** ** bungie-api-ts definitions, restricted to the fields the code reads

    The two watermark paths are declared [string], but the manifest leaves
    them out on some items (the repository's own guide reads them with
    [||]); they are optional here, since the transformer reads their
    [length] unguarded. *)

Record DisplayProperties := {
  dp_name : string;
  dp_description : string;
  dp_icon : option string;
}.

Record InventoryBlock := {
  inv_bucketTypeHash : N;
  inv_tierType : Z;
}.

Record EquippingBlock := { eq_ammoType : Z }.

Record PlugBlock := { plug_plugCategoryHash : N }.

(** An entry of [socket.reusablePlugItems]. *)
Record SocketPlugItem := { plugItemHash : N }.

Record SocketEntry := {
  socketTypeHash : N;
  singleInitialItemHash : N;
  reusablePlugItems : list SocketPlugItem;
  randomizedPlugSetHash : option N;
  reusablePlugSetHash : option N;
}.

Record SocketCategory := {
  socketCategoryHash : N;
  socketIndexes : list Z;
}.

Record SocketBlock := {
  socketEntries : list SocketEntry;
  socketCategories : list SocketCategory;
}.

Record ItemDef := {
  def_hash : N;
  def_displayProperties : DisplayProperties;
  def_flavorText : string;
  def_itemTypeDisplayName : string;
  def_itemCategoryHashes : option (list N);
  def_inventory : option InventoryBlock;
  def_defaultDamageTypeHash : option N;
  def_equippingBlock : option EquippingBlock;
  def_iconWatermark : option string;
  def_iconWatermarkShelved : option string;
  def_iconWatermarkFeatured : option string;
  def_screenshot : option string;
  def_secondaryIcon : option string;
  def_redacted : bool;
  def_isAdept : option bool;
  def_isHolofoil : option bool;
  def_isFeaturedItem : option bool;
  def_sockets : option SocketBlock;
  def_plug : option PlugBlock;
}.

(** An entry of a plug set's [reusablePlugItems]. *)
Record PlugSetItem := {
  pool_plugItemHash : N;
  currentlyCanRoll : bool;
}.

Record PlugSetDef := { pool_reusablePlugItems : list PlugSetItem }.

Record CollectibleDef := {
  coll_itemHash : N;
  coll_sourceHash : option N;
}.

Record DamageTypeDef := {
  dmg_enumValue : Z;
  dmg_icon : option string;
}.

(** The two tables that are downloaded but never read are kept as maps to
    an uninterpreted payload. *)
Record ManifestTables := {
  tbl_InventoryItem : gmap string ItemDef;
  tbl_PlugSet : gmap string PlugSetDef;
  tbl_Collectible : gmap string CollectibleDef;
  tbl_DamageType : gmap string DamageTypeDef;
  tbl_SocketType : gmap string unit;
  tbl_SocketCategory : gmap string unit;
}.

(** ** types/weapons.ts *)

Record Frame := {
  frame_hash : N;
  frame_name : string;
  frame_description : string;
  frame_iconSrc : option string;
}.

Record Intrinsic := {
  intr_hash : N;
  intr_name : string;
  intr_description : string;
  intr_iconSrc : option string;
}.

Record Perk := {
  perk_hash : N;
  perk_name : string;
  perk_description : string;
  perk_itemType : string;
  perk_iconSrc : option string;
  isCurated : bool;
  curatedExclusive : bool;
  isDeprecated : bool;
}.

Record WeaponItem := {
  wi_hash : N;
  wi_name : string;
  wi_flavorText : string;
  wi_tierType : Z;
  wi_itemType : string;
  wi_damageType : Z;
  wi_slot : Z;
  wi_ammoType : Z;
  wi_source : option N;
  wi_iconSrc : option string;
  wi_watermarkSrc : option string;
  wi_watermarkFeaturedSrc : option string;
  wi_screenshotSrc : option string;
  wi_foundrySrc : option string;
  wi_isCraftable : bool;
  wi_isAdept : bool;
  wi_isHolofoil : bool;
  wi_isFeatured : bool;
  wi_season : option Z;
  wi_event : option Z;
}.

Record WeaponFull := {
  wf_hash : N;
  wf_item : WeaponItem;
  wf_frame : option Frame;
  wf_intrinsics : list Intrinsic;
  wf_perks : list (list Perk);
}.

Record WeaponConcise := {
  wc_hash : N;
  wc_name : string;
  wc_tierType : Z;
  wc_itemType : string;
  wc_damageType : Z;
  wc_slot : Z;
  wc_ammoType : Z;
  wc_source : option N;
  wc_iconSrc : option string;
  wc_watermarkSrc : option string;
  wc_watermarkFeaturedSrc : option string;
  wc_isCraftable : bool;
  wc_isAdept : bool;
  wc_isHolofoil : bool;
  wc_isFeatured : bool;
  wc_season : option Z;
  wc_event : option Z;
  wc_frame : string;
  wc_perks : list (list string);
}.

Record D2AIData := {
  watermarkToSeason : gmap string Z;
  watermarkToEvent : gmap string Z;
  sourceToSeason : gmap string Z;
  seasons : gmap string Z;
  events : gmap string Z;
  craftableHashes : list N;
}.

(** ** services/manifest/season.ts *)

(** [getSeason]: watermark, then collectible source, then item hash. The
    guards [if (watermark)] and [if (sourceHash)] are truthiness tests. *)
Definition getSeason (itemDef : ItemDef) (watermark : option string)
    (sourceHash : option N) (d2aiData : D2AIData) : option Z :=
  let byWatermark :=
    match watermark with
    | Some w => if truthyS watermark then watermarkToSeason d2aiData !! w else None
    | None => None
    end in
  match byWatermark with
  | Some season => Some season
  | None =>
      let bySource :=
        match sourceHash with
        | Some h =>
            if truthyN sourceHash then sourceToSeason d2aiData !! jsString h else None
        | None => None
        end in
      match bySource with
      | Some season => Some season
      | None => seasons d2aiData !! jsString (def_hash itemDef)
      end
  end.

(** [getEvent]: watermark, then item hash; [_sourceHash] is ignored. *)
Definition getEvent (itemDef : ItemDef) (watermark : option string)
    (_sourceHash : option N) (d2aiData : D2AIData) : option Z :=
  let byWatermark :=
    match watermark with
    | Some w => if truthyS watermark then watermarkToEvent d2aiData !! w else None
    | None => None
    end in
  match byWatermark with
  | Some eventId => Some eventId
  | None => events d2aiData !! jsString (def_hash itemDef)
  end.

(** ** services/manifest/transformer.ts *)

Record TransformResult := {
  full : list WeaponFull;
  concise : list WeaponConcise;
}.

Definition isWeapon (itemDef : ItemDef) : bool :=
  let categories := default [] (def_itemCategoryHashes itemDef) in
  let bucketHash := inv_bucketTypeHash <$> def_inventory itemDef in
  includes categories ItemCategoryHashes.Weapon
  && negb (includes categories ItemCategoryHashes.Dummies)
  && match bucketHash with
     | Some b => includes WEAPON_BUCKET_HASHES b
     | None => false
     end
  && negb (String.eqb (dp_name (def_displayProperties itemDef)) "")
  && negb (def_redacted itemDef).

(** [itemDef.iconWatermark.length] throws when the path is missing; the
    shelved path is read only when the primary one is empty. *)
Definition getWatermark (itemDef : ItemDef) : Outcome (option string) :=
  match def_iconWatermark itemDef with
  | None => Threw
  | Some iconWatermark =>
      if (0 <? String.length iconWatermark)%nat then Returned (Some iconWatermark)
      else
        match def_iconWatermarkShelved itemDef with
        | None => Threw
        | Some iconWatermarkShelved =>
            if (0 <? String.length iconWatermarkShelved)%nat
            then Returned (Some iconWatermarkShelved)
            else Returned None
        end
  end.

Definition getSlot (bucketHash : N) : Z :=
  if (bucketHash =? 1498876634)%N then 0
  else if (bucketHash =? 2465295065)%N then 1
  else if (bucketHash =? 953998645)%N then 2
  else (-1).

Definition prefixBungieOrNull (path : option string) : option string :=
  match path with
  | Some p => if (String.length p =? 0)%nat then None else Some (BUNGIE_NET +:+ p)
  | None => None
  end.

(** The watermark is read first; when that throws, so does the call. *)
Definition extractWeaponItem (itemDef : ItemDef) (tables : ManifestTables)
    (d2aiData : D2AIData) (collectibleByItemHash : gmap string N)
    : Outcome WeaponItem :=
  let bucketHash := default 0%N (inv_bucketTypeHash <$> def_inventory itemDef) in
  match getWatermark itemDef with
  | Threw => Threw
  | Returned watermark =>
      let damageTypeDef :=
        match def_defaultDamageTypeHash itemDef with
        | Some h =>
            if truthyN (def_defaultDamageTypeHash itemDef)
            then tbl_DamageType tables !! jsString h else None
        | None => None
        end in
      let sourceHash := collectibleByItemHash !! jsString (def_hash itemDef) in
      Returned
        {| wi_hash := def_hash itemDef;
           wi_name := dp_name (def_displayProperties itemDef);
           wi_flavorText := def_flavorText itemDef;
           wi_tierType := default 0%Z (inv_tierType <$> def_inventory itemDef);
           wi_itemType := def_itemTypeDisplayName itemDef;
           wi_damageType := default 0%Z (dmg_enumValue <$> damageTypeDef);
           wi_slot := getSlot bucketHash;
           wi_ammoType := default 0%Z (eq_ammoType <$> def_equippingBlock itemDef);
           wi_source := sourceHash;
           wi_iconSrc := prefixBungieOrNull (dp_icon (def_displayProperties itemDef));
           wi_watermarkSrc := prefixBungieOrNull (def_iconWatermark itemDef);
           wi_watermarkFeaturedSrc :=
             prefixBungieOrNull (def_iconWatermarkFeatured itemDef);
           wi_screenshotSrc := prefixBungieOrNull (def_screenshot itemDef);
           wi_foundrySrc := prefixBungieOrNull (def_secondaryIcon itemDef);
           wi_isCraftable := includes (craftableHashes d2aiData) (def_hash itemDef);
           wi_isAdept := default false (def_isAdept itemDef);
           wi_isHolofoil := default false (def_isHolofoil itemDef);
           wi_isFeatured := default false (def_isFeaturedItem itemDef);
           wi_season := getSeason itemDef watermark sourceHash d2aiData;
           wi_event := getEvent itemDef watermark sourceHash d2aiData |}
  end.

(** The loop pushes every index that [at] resolves. *)
Definition getSocketsByCategory (itemDef : ItemDef) (categoryHash : N)
    : list SocketEntry :=
  match def_sockets itemDef with
  | None => []
  | Some socketData =>
      match List.find (λ c, (socketCategoryHash c =? categoryHash)%N)
                      (socketCategories socketData) with
      | None => []
      | Some category =>
          fold_left
            (λ sockets index,
               match array_at (socketEntries socketData) index with
               | Some socket => sockets ++ [socket]
               | None => sockets
               end)
            (socketIndexes category) []
      end
  end.

Definition getFrame (itemDef : ItemDef) (tables : ManifestTables) : option Frame :=
  let sockets := getSocketsByCategory itemDef SocketCategoryHashes.IntrinsicTraits in
  match array_at sockets 0 with
  | None => None
  | Some socket =>
      let plugHash := singleInitialItemHash socket in
      if (plugHash =? 0)%N then None
      else match tbl_InventoryItem tables !! jsString plugHash with
           | None => None
           | Some plugDef =>
               Some {| frame_hash := def_hash plugDef;
                       frame_name := dp_name (def_displayProperties plugDef);
                       frame_description := dp_description (def_displayProperties plugDef);
                       frame_iconSrc :=
                         prefixBungieOrNull (dp_icon (def_displayProperties plugDef)) |}
           end
  end.

Definition getIntrinsics (itemDef : ItemDef) (tables : ManifestTables)
    : list Intrinsic :=
  let sockets := getSocketsByCategory itemDef SocketCategoryHashes.WeaponPerks in
  fold_left
    (λ intrinsics socket,
       let plugHash := singleInitialItemHash socket in
       if (plugHash =? 0)%N then intrinsics
       else match tbl_InventoryItem tables !! jsString plugHash with
            | None => intrinsics
            | Some plugDef =>
                let plugCategories := default [] (def_itemCategoryHashes plugDef) in
                if includes plugCategories ItemCategoryHashes.WeaponModsOriginTraits
                then intrinsics ++
                     [{| intr_hash := def_hash plugDef;
                         intr_name := dp_name (def_displayProperties plugDef);
                         intr_description := dp_description (def_displayProperties plugDef);
                         intr_iconSrc :=
                           prefixBungieOrNull (dp_icon (def_displayProperties plugDef)) |}]
                else intrinsics
            end)
    sockets [].

Definition getCuratedPlugHashes (socket : SocketEntry) : list N :=
  fold_left (λ curated plug, set_add curated (plugItemHash plug))
            (reusablePlugItems socket) [].

Definition isEmptyPlug (plugDef : ItemDef) : bool :=
  match plug_plugCategoryHash <$> def_plug plugDef with
  | Some plugCategoryHash => includes EMPTY_PLUG_CATEGORY_HASHES plugCategoryHash
  | None => false
  end.

Definition isEnhancedPerk (plugDef : ItemDef) : bool :=
  match inv_tierType <$> def_inventory plugDef with
  | Some t => (t =? ENHANCED_PERK_TIER_TYPE)%Z
  | None => false
  end.

Definition isValidPerk (plugDef : ItemDef) : bool :=
  (0 <? String.length (dp_name (def_displayProperties plugDef)))%nat
  && negb (isEmptyPlug plugDef)
  && negb (isEnhancedPerk plugDef).

Record PerkOptions := {
  opt_isCurated : bool;
  opt_curatedExclusive : bool;
  opt_isDeprecated : bool;
}.

Definition createPerk (plugDef : ItemDef) (options : PerkOptions) : Perk :=
  {| perk_hash := def_hash plugDef;
     perk_name := dp_name (def_displayProperties plugDef);
     perk_description := dp_description (def_displayProperties plugDef);
     perk_itemType := def_itemTypeDisplayName plugDef;
     perk_iconSrc := prefixBungieOrNull (dp_icon (def_displayProperties plugDef));
     isCurated := opt_isCurated options;
     curatedExclusive := opt_curatedExclusive options;
     isDeprecated := opt_isDeprecated options |}.

(** The loop state is the pair [(perks, seenHashes)]. *)
Definition getPerksFromReusablePlugItems (socket : SocketEntry)
    (tables : ManifestTables) : list Perk :=
  fst (fold_left
    (λ '(perks, seenHashes) plug,
       match tbl_InventoryItem tables !! jsString (plugItemHash plug) with
       | None => (perks, seenHashes)
       | Some plugDef =>
           if negb (isValidPerk plugDef) then (perks, seenHashes)
           else if includes seenHashes (def_hash plugDef) then (perks, seenHashes)
           else (perks ++
                   [createPerk plugDef
                      {| opt_isCurated :=
                           (plugItemHash plug =? singleInitialItemHash socket)%N;
                         opt_curatedExclusive := false;
                         opt_isDeprecated := false |}],
                 set_add seenHashes (def_hash plugDef))
       end)
    (reusablePlugItems socket) ([], [])).

Definition getFixedPerk (socket : SocketEntry) (tables : ManifestTables)
    : option Perk :=
  if (singleInitialItemHash socket =? 0)%N then None
  else match tbl_InventoryItem tables !! jsString (singleInitialItemHash socket) with
       | None => None
       | Some plugDef =>
           if negb (isValidPerk plugDef) then None
           else Some (createPerk plugDef
                        {| opt_isCurated := true;
                           opt_curatedExclusive := true;
                           opt_isDeprecated := false |})
       end.

Definition getPerksFromPlugSet (socket : SocketEntry) (plugSet : PlugSetDef)
    (tables : ManifestTables) : list Perk :=
  let curatedHashes := getCuratedPlugHashes socket in
  let randomPoolHashes := pool_plugItemHash <$> pool_reusablePlugItems plugSet in
  (* perks from the random pool *)
  let perks :=
    fold_left
      (λ perks plug,
         match tbl_InventoryItem tables !! jsString (pool_plugItemHash plug) with
         | None => perks
         | Some plugDef =>
             if negb (isValidPerk plugDef) then perks
             else perks ++
                    [createPerk plugDef
                       {| opt_isCurated := includes curatedHashes (pool_plugItemHash plug);
                          opt_curatedExclusive := false;
                          opt_isDeprecated := negb (currentlyCanRoll plug) |}]
         end)
      (pool_reusablePlugItems plugSet) [] in
  (* curated-exclusive perks: in the curated list but not in the random pool *)
  fold_left
    (λ perks curatedHash,
       if includes randomPoolHashes curatedHash then perks
       else match tbl_InventoryItem tables !! jsString curatedHash with
            | None => perks
            | Some plugDef =>
                if negb (isValidPerk plugDef) then perks
                else perks ++
                       [createPerk plugDef
                          {| opt_isCurated := true;
                             opt_curatedExclusive := true;
                             opt_isDeprecated := false |}]
            end)
    curatedHashes perks.

(** [a ?? b] on the two optional plug-set references. *)
Definition plugSetHashOf (socket : SocketEntry) : option N :=
  match randomizedPlugSetHash socket with
  | Some h => Some h
  | None => reusablePlugSetHash socket
  end.

Definition getPerks (itemDef : ItemDef) (tables : ManifestTables)
    : list (list Perk) :=
  let sockets := getSocketsByCategory itemDef SocketCategoryHashes.WeaponPerks in
  fold_left
    (λ perkColumns socket,
       if (socketTypeHash socket =? SocketTypeHashes.Tracker)%N then perkColumns
       else
         match plugSetHashOf socket with
         | None =>
             if (0 <? length (reusablePlugItems socket))%nat then
               let perks := getPerksFromReusablePlugItems socket tables in
               if (0 <? length perks)%nat then perkColumns ++ [perks] else perkColumns
             else
               match getFixedPerk socket tables with
               | Some fixedPerk => perkColumns ++ [[fixedPerk]]
               | None => perkColumns
               end
         | Some plugSetHash =>
             match tbl_PlugSet tables !! jsString plugSetHash with
             | None => perkColumns
             | Some plugSet =>
                 let perks := getPerksFromPlugSet socket plugSet tables in
                 if (0 <? length perks)%nat then perkColumns ++ [perks] else perkColumns
             end
         end)
    sockets [].

Definition toWeaponConcise (weaponFull : WeaponFull) : WeaponConcise :=
  {| wc_hash := wf_hash weaponFull;
     wc_name := wi_name (wf_item weaponFull);
     wc_tierType := wi_tierType (wf_item weaponFull);
     wc_itemType := wi_itemType (wf_item weaponFull);
     wc_damageType := wi_damageType (wf_item weaponFull);
     wc_slot := wi_slot (wf_item weaponFull);
     wc_ammoType := wi_ammoType (wf_item weaponFull);
     wc_source := wi_source (wf_item weaponFull);
     wc_iconSrc := wi_iconSrc (wf_item weaponFull);
     wc_watermarkSrc := wi_watermarkSrc (wf_item weaponFull);
     wc_watermarkFeaturedSrc := wi_watermarkFeaturedSrc (wf_item weaponFull);
     wc_isCraftable := wi_isCraftable (wf_item weaponFull);
     wc_isAdept := wi_isAdept (wf_item weaponFull);
     wc_isHolofoil := wi_isHolofoil (wf_item weaponFull);
     wc_isFeatured := wi_isFeatured (wf_item weaponFull);
     wc_season := wi_season (wf_item weaponFull);
     wc_event := wi_event (wf_item weaponFull);
     wc_frame := default "" (frame_name <$> wf_frame weaponFull);
     wc_perks := map (λ column, map (λ perk, perk_name perk) column) (wf_perks weaponFull) |}.

(** The reverse index [itemHash -> sourceHash] built before the item loop. *)
Definition buildCollectibleIndex (tables : ManifestTables) : gmap string N :=
  fold_left
    (λ collectibleByItemHash collectible,
       if negb (coll_itemHash collectible =? 0)%N
       then <[jsString (coll_itemHash collectible) :=
                default 0%N (coll_sourceHash collectible)]> collectibleByItemHash
       else collectibleByItemHash)
    (Object_values (tbl_Collectible tables)) ∅.

(** The body of the [try] block for one weapon: it throws when the item
    attributes cannot be extracted. The three resolutions after it read
    socket and plug fields that the definitions carry here as their types
    declare them, so they return. *)
Definition buildWeaponFull (itemDef : ItemDef) (tables : ManifestTables)
    (d2aiData : D2AIData) (collectibleByItemHash : gmap string N)
    : Outcome WeaponFull :=
  match extractWeaponItem itemDef tables d2aiData collectibleByItemHash with
  | Threw => Threw
  | Returned weaponItem =>
      let frame := getFrame itemDef tables in
      let intrinsics := getIntrinsics itemDef tables in
      let perks := getPerks itemDef tables in
      Returned
        {| wf_hash := def_hash itemDef;
           wf_item := weaponItem;
           wf_frame := frame;
           wf_intrinsics := intrinsics;
           wf_perks := perks |}
  end.

(** A weapon whose build throws is caught, logged and left out of both
    arrays; the loop goes on with the next one. *)
Definition transformWeapons (tables : ManifestTables) (d2aiData : D2AIData)
    : TransformResult :=
  let inventoryItems := Object_values (tbl_InventoryItem tables) in
  let collectibleByItemHash := buildCollectibleIndex tables in
  let weapons := List.filter isWeapon inventoryItems in
  let '(full, concise) :=
    fold_left
      (λ '(full, concise) itemDef,
         match buildWeaponFull itemDef tables d2aiData collectibleByItemHash with
         | Returned weaponFull =>
             (full ++ [weaponFull], concise ++ [toWeaponConcise weaponFull])
         | Threw => (full, concise)
         end)
      weapons ([], []) in
  {| full := full; concise := concise |}.

(** ** The world of the asynchronous code: IndexedDB and the network

    A promise-returning function that is awaited on its own is a state
    transformer over the [World] that yields [Some v] when its promise
    fulfils and [None] when it rejects; the effects made before a rejection
    stay. The IndexedDB operations are total (storage failures are outside
    the model). *)

(** The [helperData] table holds untyped blobs under two fixed keys; each
    key is a typed slot here. *)
Record Database := {
  db_metadata : gmap string string;
  db_helperData_d2ai : option D2AIData;
  db_helperData_damageTypeIcons : option (gmap Z string);
  db_weapons : gmap N WeaponFull;
  db_weaponsConcise : gmap N WeaponConcise;
}.

Inductive Request :=
  | MetadataFetch
  | TableFetch (tableName url : string)
  | AuxFetch (url : string).

Record World := {
  db : Database;
  requests : list Request;
}.

Definition Async (A : Type) : Type := World → option A * World.

#[global] Instance Async_ret : MRet Async := λ A a w, (Some a, w).

#[global] Instance Async_bind : MBind Async :=
  λ A B k m w, match m w with
               | (Some a, w') => k a w'
               | (None, w') => (None, w')
               end.

Definition throw {A} : Async A := λ w, (None, w).

Definition try_catch {A} (body handler : Async A) : Async A :=
  λ w, match body w with
       | (Some a, w') => (Some a, w')
       | (None, w') => handler w'
       end.

Definition modify_db (f : Database → Database) : Async unit :=
  λ w, (Some tt, {| db := f (db w); requests := requests w |}).

Definition read_db {A} (f : Database → A) : Async A :=
  λ w, (Some (f (db w)), w).

(** A [fetch] followed by the [ok] test and [json()]: the request is
    recorded and the response decides between fulfilment and rejection. *)
Definition fetch_json {A} (req : Request) (response : option A) : Async A :=
  λ w, (response, {| db := db w; requests := requests w ++ [req] |}).

(** *** Promises that run side by side

    A call of an [async] function runs its body up to the first [await]
    at once and hands back a promise; the rest of the body runs when what it
    awaits arrives. [sync_part] is the first part, [pending] the rest. *)
Record Promise (A : Type) := {
  sync_part : World → World;
  pending : Async A;
}.

Arguments sync_part {A} _ _.
Arguments pending {A} _ _.

(** [await p] with nothing else running. *)
Definition await {A} (p : Promise A) : Async A :=
  λ w, pending p (sync_part p w).

(** A promise applied to a world is the promise awaited in that world. *)
Definition awaited {A} (p : Promise A) : World → option A * World := await p.

Coercion awaited : Promise >-> Funclass.

(** An [async] function whose body starts with an [await] that has no
    effect: nothing happens when it is called. *)
Definition async {A} (body : Async A) : Promise A :=
  {| sync_part := λ w, w; pending := body |}.

(** An [async] function that throws before its first [await]. *)
Definition rejected {A} : Promise A :=
  {| sync_part := λ w, w; pending := throw |}.

(** [fetch(url)] as a promise: the request leaves when the call is made,
    the response settles it later and changes nothing. *)
Definition fetching {A} (req : Request) (response : option A) : Promise A :=
  {| sync_part := λ w, {| db := db w; requests := requests w ++ [req] |};
     pending := λ w, (response, w) |}.

(** The body that goes on after [await p]. *)
Definition and_then {A B} (p : Promise A) (k : A → Async B) : Promise B :=
  {| sync_part := sync_part p; pending := pending p ≫= k |}.

(** [Promise.all([p, q])]: both calls are made, [p] first. The result
    rejects as soon as one of them does: when [p] rejects, what [q] still
    has to do happens after the rejection and is not part of the world the
    rejection leaves. *)
Definition all2 {A B} (p : Promise A) (q : Promise B) : Promise (A * B) :=
  {| sync_part := λ w, sync_part q (sync_part p w);
     pending := λ w,
       match pending p w with
       | (None, w1) => (None, w1)
       | (Some a, w1) =>
           match pending q w1 with
           | (Some b, w2) => (Some (a, b), w2)
           | (None, w2) => (None, w2)
           end
       end |}.

Record ManifestMetadata := {
  meta_version : string;
  meta_paths : gmap string string;
}.

(** What the remote ends answer. A response is [None] when the request
    fails, the status is not ok, or the body is not the expected JSON. *)
Record Network := {
  net_metadata : option ManifestMetadata;
  net_InventoryItem : string → option (gmap string ItemDef);
  net_PlugSet : string → option (gmap string PlugSetDef);
  net_Collectible : string → option (gmap string CollectibleDef);
  net_DamageType : string → option (gmap string DamageTypeDef);
  net_SocketType : string → option (gmap string unit);
  net_SocketCategory : string → option (gmap string unit);
  net_lookup : string → option (gmap string Z);
  net_hashes : string → option (list N);
}.

(** ** services/manifest/api.ts *)

Definition fetchManifestMetadata (net : Network) : Async ManifestMetadata :=
  fetch_json MetadataFetch (net_metadata net).

(** One element of [tableNames.map(async (tableName) => ...)]: without a
    path the callback throws at once, otherwise it calls [fetch]. *)
Definition fetchTable {T} (respond : string → option T)
    (paths : gmap string string) (tableName : string) : Promise T :=
  match paths !! tableName with
  | Some path =>
      if String.eqb path "" then rejected
      else fetching (TableFetch tableName (BUNGIE_NET +:+ path))
                    (respond (BUNGIE_NET +:+ path))
  | None => rejected
  end.

Definition fetchManifestTables (net : Network) (paths : gmap string string)
    : Promise ManifestTables :=
  and_then (
    all2 (fetchTable (net_InventoryItem net) paths "DestinyInventoryItemDefinition")
   (all2 (fetchTable (net_PlugSet net) paths "DestinyPlugSetDefinition")
   (all2 (fetchTable (net_Collectible net) paths "DestinyCollectibleDefinition")
   (all2 (fetchTable (net_DamageType net) paths "DestinyDamageTypeDefinition")
   (all2 (fetchTable (net_SocketType net) paths "DestinySocketTypeDefinition")
         (fetchTable (net_SocketCategory net) paths "DestinySocketCategoryDefinition"))))))
  (λ '(items, (plugSets, (collectibles, (damageTypes, (socketTypes, socketCategories))))),
     mret {| tbl_InventoryItem := items;
             tbl_PlugSet := plugSets;
             tbl_Collectible := collectibles;
             tbl_DamageType := damageTypes;
             tbl_SocketType := socketTypes;
             tbl_SocketCategory := socketCategories |}).

(** ** services/manifest/d2ai.ts *)

Definition fetchD2AIFile {T} (respond : string → option T) (filename : string)
    : Promise T :=
  let url := D2AI_MODULE_URL +:+ "/" +:+ filename in
  fetching (AuxFetch url) (respond url).

Definition emptyD2AIData : D2AIData :=
  {| watermarkToSeason := ∅;
     watermarkToEvent := ∅;
     sourceToSeason := ∅;
     seasons := ∅;
     events := ∅;
     craftableHashes := [] |}.

(** [db.helperData.put({ key: "d2ai", data })]. *)
Definition withD2AICache (data : D2AIData) (d : Database) : Database :=
  {| db_metadata := db_metadata d;
     db_helperData_d2ai := Some data;
     db_helperData_damageTypeIcons := db_helperData_damageTypeIcons d;
     db_weapons := db_weapons d;
     db_weaponsConcise := db_weaponsConcise d |}.

(** The body starts by awaiting the cache read, so calling the function
    does nothing yet. *)
Definition loadD2AIData (net : Network) : Promise D2AIData :=
  async (
    cached ← read_db db_helperData_d2ai;
    match cached with
    | Some data => mret data
    | None =>
        try_catch
          ('(watermarkToSeason, (watermarkToEvent, (sourceToSeason,
              (seasons, (events, craftableHashes))))) ←
              await
                (all2 (fetchD2AIFile (net_lookup net) "watermark-to-season.json")
                (all2 (fetchD2AIFile (net_lookup net) "watermark-to-event.json")
                (all2 (fetchD2AIFile (net_lookup net) "source-to-season-v2.json")
                (all2 (fetchD2AIFile (net_lookup net) "seasons.json")
                (all2 (fetchD2AIFile (net_lookup net) "events.json")
                      (fetchD2AIFile (net_hashes net) "craftable-hashes.json"))))));
           let data :=
             {| watermarkToSeason := watermarkToSeason;
                watermarkToEvent := watermarkToEvent;
                sourceToSeason := sourceToSeason;
                seasons := seasons;
                events := events;
                craftableHashes := craftableHashes |} in
           modify_db (withD2AICache data);;
           mret data)
          (mret emptyD2AIData)
    end).

(** ** The manifest loader *)

Definition extractDamageTypeIcons (tables : ManifestTables) : gmap Z string :=
  fold_left
    (λ icons damageTypeDef,
       match prefixBungieOrNull (dmg_icon damageTypeDef) with
       | Some iconPath =>
           if truthyS (Some iconPath)
           then <[dmg_enumValue damageTypeDef := iconPath]> icons else icons
       | None => icons
       end)
    (Object_values (tbl_DamageType tables)) ∅.

Record ManifestLoadResult := {
  version : string;
  weaponCount : nat;
  cached : bool;
}.

(** [table.bulkPut(records)] on a table keyed by [hash]. *)
Definition bulkPut {A} (key : A → N) (records : list A) (table : gmap N A)
    : gmap N A :=
  fold_left (λ t r, <[key r := r]> t) records table.

(** The read-write transaction of step 6, as one atomic update. *)
Definition persist (weapons : TransformResult) (remoteVersion : string)
    (damageTypeIcons : gmap Z string) (d : Database) : Database :=
  {| db_metadata := <["version" := remoteVersion]> (db_metadata d);
     db_helperData_d2ai := db_helperData_d2ai d;
     db_helperData_damageTypeIcons := Some damageTypeIcons;
     db_weapons := bulkPut wf_hash (full weapons) ∅;
     db_weaponsConcise := bulkPut wc_hash (concise weapons) ∅ |}.

Definition loadManifest (net : Network) : Async ManifestLoadResult :=
  meta ← fetchManifestMetadata net;
  let remoteVersion := meta_version meta in
  let paths := meta_paths meta in
  cachedVersion ← read_db (λ d, db_metadata d !! "version");
  if bool_decide (cachedVersion = Some remoteVersion) then
    weaponCount ← read_db (λ d, size (db_weaponsConcise d));
    mret {| version := remoteVersion; weaponCount := weaponCount; cached := true |}
  else
    '(tables, d2aiData) ←
      await (all2 (fetchManifestTables net paths) (loadD2AIData net));
    let weapons := transformWeapons tables d2aiData in
    let damageTypeIcons := extractDamageTypeIcons tables in
    modify_db (persist weapons remoteVersion damageTypeIcons);;
    mret {| version := remoteVersion;
           weaponCount := length (full weapons);
           cached := false |}.

Definition forceManifestRefresh (net : Network) : Async ManifestLoadResult :=
  modify_db (λ d,
    {| db_metadata := delete "version" (db_metadata d);
       db_helperData_d2ai := db_helperData_d2ai d;
       db_helperData_damageTypeIcons := db_helperData_damageTypeIcons d;
       db_weapons := db_weapons d;
       db_weaponsConcise := db_weaponsConcise d |});;
  loadManifest net.

(** ** Specification-side definitions

    The functions below are not part of the program: they state, in closed
    form, what the loops of the transformer compute, and the theorems relate
    the two. *)

(** The perk a pool entry contributes to a plug-set column, if any. *)
Definition poolPerkOf (socket : SocketEntry) (tables : ManifestTables)
    (plug : PlugSetItem) : option Perk :=
  match tbl_InventoryItem tables !! jsString (pool_plugItemHash plug) with
  | Some plugDef =>
      if isValidPerk plugDef then
        Some (createPerk plugDef
                {| opt_isCurated :=
                     bool_decide (pool_plugItemHash plug ∈
                                    plugItemHash <$> reusablePlugItems socket);
                   opt_curatedExclusive := false;
                   opt_isDeprecated := negb (currentlyCanRoll plug) |})
      else None
  | None => None
  end.

(** The perk a curated hash outside the pool contributes, if any. *)
Definition exclusivePerkOf (tables : ManifestTables) (curatedHash : N)
    : option Perk :=
  match tbl_InventoryItem tables !! jsString curatedHash with
  | Some plugDef =>
      if isValidPerk plugDef then
        Some (createPerk plugDef
                {| opt_isCurated := true;
                   opt_curatedExclusive := true;
                   opt_isDeprecated := false |})
      else None
  | None => None
  end.

(** First occurrences of a list, in order. *)
Fixpoint firstOccurrences (seen l : list N) : list N :=
  match l with
  | [] => []
  | x :: l' =>
      if includes seen x then firstOccurrences seen l'
      else x :: firstOccurrences (seen ++ [x]) l'
  end.

(** The curated hashes of a socket that the pool does not list. *)
Definition curatedOutsidePool (socket : SocketEntry) (plugSet : PlugSetDef)
    : list N :=
  List.filter
    (λ h, negb (includes (pool_plugItemHash <$> pool_reusablePlugItems plugSet) h))
    (firstOccurrences [] (plugItemHash <$> reusablePlugItems socket)).

(** The column one socket contributes to [getPerks], [None] when it
    contributes none: the body of the loop of [getPerks]. *)
Definition perkColumnOf (socket : SocketEntry) (tables : ManifestTables)
    : option (list Perk) :=
  if (socketTypeHash socket =? SocketTypeHashes.Tracker)%N then None
  else
    match plugSetHashOf socket with
    | None =>
        if (0 <? length (reusablePlugItems socket))%nat then
          let perks := getPerksFromReusablePlugItems socket tables in
          if (0 <? length perks)%nat then Some perks else None
        else (λ fixedPerk, [fixedPerk]) <$> getFixedPerk socket tables
    | Some plugSetHash =>
        match tbl_PlugSet tables !! jsString plugSetHash with
        | None => None
        | Some plugSet =>
            let perks := getPerksFromPlugSet socket plugSet tables in
            if (0 <? length perks)%nat then Some perks else None
        end
    end.

(** A perk that was built from a plug definition held by the item table
    and accepted by the validity filter. *)
Definition builtFromValidPlug (tables : ManifestTables) (perk : Perk) : Prop :=
  ∃ (key : string) (plugDef : ItemDef) (options : PerkOptions),
    tbl_InventoryItem tables !! key = Some plugDef
    ∧ perk = createPerk plugDef options
    ∧ dp_name (def_displayProperties plugDef) ≠ ""
    ∧ (∀ p, def_plug plugDef = Some p →
            plug_plugCategoryHash p ∉ EMPTY_PLUG_CATEGORY_HASHES)
    ∧ (∀ inv, def_inventory plugDef = Some inv →
              inv_tierType inv ≠ ENHANCED_PERK_TIER_TYPE).

(** A table that files every definition under its own hash. *)
Definition keyedByHash (tables : ManifestTables) : Prop :=
  ∀ key plugDef,
    tbl_InventoryItem tables !! key = Some plugDef → key = jsString (def_hash plugDef).

(** The qualification filter in the words of the design document. *)
Definition qualifies (itemDef : ItemDef) : Prop :=
  ItemCategoryHashes.Weapon ∈ default [] (def_itemCategoryHashes itemDef)
  ∧ (ItemCategoryHashes.Dummies ∉ default [] (def_itemCategoryHashes itemDef))
  ∧ (∃ inv, def_inventory itemDef = Some inv
            ∧ inv_bucketTypeHash inv ∈
                [BucketHashes.KineticWeapons; BucketHashes.EnergyWeapons;
                 BucketHashes.PowerWeapons])
  ∧ dp_name (def_displayProperties itemDef) ≠ ""
  ∧ def_redacted itemDef = false.

(** First hit of a chain of lookups. *)
Fixpoint firstHit (steps : list (option Z)) : option Z :=
  match steps with
  | [] => None
  | Some v :: _ => Some v
  | None :: rest => firstHit rest
  end.

(** The watermark in the words of the design document: the primary path
    if non-empty, else the shelved path if non-empty, else none. A path that
    is missing has no characters. *)
Definition watermarkOf (itemDef : ItemDef) : option string :=
  let primary := default "" (def_iconWatermark itemDef) in
  let shelved := default "" (def_iconWatermarkShelved itemDef) in
  if decide (primary ≠ "") then Some primary
  else if decide (shelved ≠ "") then Some shelved
       else None.

(** The season chain as the design document words it: watermark, source
    hash, item hash. *)
Definition seasonChain_asStated (itemDef : ItemDef) (sourceHash : option N)
    (d2aiData : D2AIData) : option Z :=
  firstHit
    [ (watermarkOf itemDef ≫= (λ w, watermarkToSeason d2aiData !! w));
      (sourceHash ≫= (λ h, sourceToSeason d2aiData !! jsString h));
      seasons d2aiData !! jsString (def_hash itemDef) ].

(** The season chain of the code: a source hash of [0] is no source. *)
Definition seasonChain (itemDef : ItemDef) (sourceHash : option N)
    (d2aiData : D2AIData) : option Z :=
  firstHit
    [ (watermarkOf itemDef ≫= (λ w, watermarkToSeason d2aiData !! w));
      (sourceHash ≫= (λ h, if decide (h = 0%N) then None
                            else sourceToSeason d2aiData !! jsString h));
      seasons d2aiData !! jsString (def_hash itemDef) ].

Definition eventChain (itemDef : ItemDef) (d2aiData : D2AIData) : option Z :=
  firstHit
    [ (watermarkOf itemDef ≫= (λ w, watermarkToEvent d2aiData !! w));
      events d2aiData !! jsString (def_hash itemDef) ].

(** The flags and hash of a perk entry. *)
Definition perkSummary (perk : Perk) : N * bool * bool * bool :=
  (perk_hash perk, isCurated perk, curatedExclusive perk, isDeprecated perk).

(** The plug-set column as the design document words it: one entry per pool
    entry, then one per curated hash outside the pool. *)
Definition plugSetColumn_asStated (socket : SocketEntry) (plugSet : PlugSetDef)
    : list (N * bool * bool * bool) :=
  ((λ plug,
      (pool_plugItemHash plug,
       bool_decide (pool_plugItemHash plug ∈ plugItemHash <$> reusablePlugItems socket),
       false,
       negb (currentlyCanRoll plug))) <$> pool_reusablePlugItems plugSet)
  ++ ((λ h, (h, true, true, false)) <$> curatedOutsidePool socket plugSet).

(** The six auxiliary responses. *)
Definition auxResponses (net : Network) : option D2AIData :=
  let file name := D2AI_MODULE_URL +:+ "/" +:+ name in
  match net_lookup net (file "watermark-to-season.json"),
        net_lookup net (file "watermark-to-event.json"),
        net_lookup net (file "source-to-season-v2.json"),
        net_lookup net (file "seasons.json"),
        net_lookup net (file "events.json"),
        net_hashes net (file "craftable-hashes.json") with
  | Some a, Some b, Some c, Some d, Some e, Some f =>
      Some {| watermarkToSeason := a; watermarkToEvent := b; sourceToSeason := c;
              seasons := d; events := e; craftableHashes := f |}
  | _, _, _, _, _, _ => None
  end.

(** The auxiliary data with a per-file fallback, as the design document
    words it: each file that fails is replaced by its empty value. *)
Definition perFileFallback (net : Network) : D2AIData :=
  let file name := D2AI_MODULE_URL +:+ "/" +:+ name in
  {| watermarkToSeason := default ∅ (net_lookup net (file "watermark-to-season.json"));
     watermarkToEvent := default ∅ (net_lookup net (file "watermark-to-event.json"));
     sourceToSeason := default ∅ (net_lookup net (file "source-to-season-v2.json"));
     seasons := default ∅ (net_lookup net (file "seasons.json"));
     events := default ∅ (net_lookup net (file "events.json"));
     craftableHashes := default [] (net_hashes net (file "craftable-hashes.json")) |}.

(** The six requests [loadD2AIData] issues when the cache is empty. *)
Definition auxRequests : list Request :=
  (λ name, AuxFetch (D2AI_MODULE_URL +:+ "/" +:+ name)) <$>
    [ "watermark-to-season.json"; "watermark-to-event.json";
      "source-to-season-v2.json"; "seasons.json"; "events.json";
      "craftable-hashes.json" ].

Definition isTableFetch (r : Request) : bool :=
  match r with TableFetch _ _ => true | _ => false end.

Definition isAuxFetch (r : Request) : bool :=
  match r with AuxFetch _ => true | _ => false end.

(** ** Sample manifest

    A small manifest used to evaluate the transformer: one weapon with a
    frame socket and five perk sockets, a redacted copy of it, and the plug
    definitions and plug sets its sockets refer to. *)

Module Sample.

Definition mkItem (h : N) (nm : string) (cats : option (list N))
    (inv : option InventoryBlock) (isRedacted : bool) (wm shelved : string)
    (sockets : option SocketBlock) (plug : option PlugBlock) : ItemDef :=
  {| def_hash := h;
     def_displayProperties :=
       {| dp_name := nm; dp_description := ""; dp_icon := None |};
     def_flavorText := "";
     def_itemTypeDisplayName := "";
     def_itemCategoryHashes := cats;
     def_inventory := inv;
     def_defaultDamageTypeHash := None;
     def_equippingBlock := None;
     def_iconWatermark := Some wm;
     def_iconWatermarkShelved := Some shelved;
     def_iconWatermarkFeatured := None;
     def_screenshot := None;
     def_secondaryIcon := None;
     def_redacted := isRedacted;
     def_isAdept := None;
     def_isHolofoil := None;
     def_isFeaturedItem := None;
     def_sockets := sockets;
     def_plug := plug |}.

Definition mkPlug (h : N) (nm : string) (tier : Z) : ItemDef :=
  mkItem h nm None (Some {| inv_bucketTypeHash := 0; inv_tierType := tier |})
         false "" "" None (Some {| plug_plugCategoryHash := 7 |}).

Definition rampage : ItemDef := mkPlug 11 "Rampage" 2.
Definition enhancedRampage : ItemDef := mkPlug 12 "Rampage" 3.
Definition killClip : ItemDef := mkPlug 13 "Kill Clip" 2.
Definition swashbuckler : ItemDef := mkPlug 15 "Swashbuckler" 2.
Definition adaptiveFrame : ItemDef := mkPlug 20 "Adaptive Frame" 0.

Definition mkSocket (type single : N) (own : list N) (randomized reusable : option N)
    : SocketEntry :=
  {| socketTypeHash := type;
     singleInitialItemHash := single;
     reusablePlugItems := (λ h, {| plugItemHash := h |}) <$> own;
     randomizedPlugSetHash := randomized;
     reusablePlugSetHash := reusable |}.

Definition frameSocket : SocketEntry := mkSocket 1 20 [] None None.

(** The pool {A, B, C} of the design document: A curated, C no longer rolls. *)
Definition poolSocket : SocketEntry := mkSocket 2 11 [11%N] (Some 500%N) None.

(** A pool with an enhanced perk, and a curated hash (14) without a
    definition; the reusable plug set is shadowed by the randomized one. *)
Definition filteredSocket : SocketEntry :=
  mkSocket 2 11 [11; 14]%N (Some 501%N) (Some 500%N).

(** A pool that lists the same plug twice. *)
Definition duplicateSocket : SocketEntry := mkSocket 2 0 [] None (Some 502%N).

Definition trackerSocket : SocketEntry :=
  mkSocket SocketTypeHashes.Tracker 0 [] (Some 500%N) None.

(** A pool whose only entry is an enhanced perk. *)
Definition emptiedSocket : SocketEntry := mkSocket 2 0 [] (Some 503%N) None.

Definition mkPool (entries : list (N * bool)) : PlugSetDef :=
  {| pool_reusablePlugItems :=
       (λ e, {| pool_plugItemHash := e.1; currentlyCanRoll := e.2 |}) <$> entries |}.

Definition socketBlock : SocketBlock :=
  {| socketEntries :=
       [frameSocket; poolSocket; filteredSocket; duplicateSocket;
        trackerSocket; emptiedSocket];
     socketCategories :=
       [ {| socketCategoryHash := SocketCategoryHashes.IntrinsicTraits;
            socketIndexes := [0%Z] |};
         {| socketCategoryHash := SocketCategoryHashes.WeaponPerks;
            socketIndexes := [1; 2; 3; 4; 5]%Z |} ] |}.

Definition kinetic : option InventoryBlock :=
  Some {| inv_bucketTypeHash := BucketHashes.KineticWeapons; inv_tierType := 5 |}.

Definition rifle : ItemDef :=
  mkItem 100 "Test Rifle" (Some [1; 5]%N) kinetic false "" "/wm/shelved.png"
         (Some socketBlock) None.

Definition redactedRifle : ItemDef :=
  mkItem 101 "Test Rifle" (Some [1; 5]%N) kinetic true "" "/wm/shelved.png"
         (Some socketBlock) None.

Definition tables : ManifestTables :=
  {| tbl_InventoryItem :=
       list_to_map
         [ (jsString 11, rampage); (jsString 12, enhancedRampage);
           (jsString 13, killClip); (jsString 15, swashbuckler);
           (jsString 20, adaptiveFrame);
           (jsString 100, rifle); (jsString 101, redactedRifle) ];
     tbl_PlugSet :=
       list_to_map
         [ (jsString 500, mkPool [(11, true); (15, true); (13, false)]%N);
           (jsString 501, mkPool [(11, true); (12, true)]%N);
           (jsString 502, mkPool [(13, true); (13, false)]%N);
           (jsString 503, mkPool [(12, true)]%N) ];
     tbl_Collectible :=
       list_to_map
         [ (jsString 900, {| coll_itemHash := 100; coll_sourceHash := Some 0%N |}) ];
     tbl_DamageType := ∅;
     tbl_SocketType := ∅;
     tbl_SocketCategory := ∅ |}.

(** A copy of the sample weapon, under hash 102, whose manifest entry has
    neither watermark path. *)
Definition unmarkedRifle : ItemDef :=
  {| def_hash := 102;
     def_displayProperties := def_displayProperties rifle;
     def_flavorText := def_flavorText rifle;
     def_itemTypeDisplayName := def_itemTypeDisplayName rifle;
     def_itemCategoryHashes := def_itemCategoryHashes rifle;
     def_inventory := def_inventory rifle;
     def_defaultDamageTypeHash := def_defaultDamageTypeHash rifle;
     def_equippingBlock := def_equippingBlock rifle;
     def_iconWatermark := None;
     def_iconWatermarkShelved := None;
     def_iconWatermarkFeatured := def_iconWatermarkFeatured rifle;
     def_screenshot := def_screenshot rifle;
     def_secondaryIcon := def_secondaryIcon rifle;
     def_redacted := def_redacted rifle;
     def_isAdept := def_isAdept rifle;
     def_isHolofoil := def_isHolofoil rifle;
     def_isFeaturedItem := def_isFeaturedItem rifle;
     def_sockets := def_sockets rifle;
     def_plug := def_plug rifle |}.

(** The sample manifest with that weapon added. *)
Definition tablesWithUnmarked : ManifestTables :=
  {| tbl_InventoryItem := <[jsString 102 := unmarkedRifle]> (tbl_InventoryItem tables);
     tbl_PlugSet := tbl_PlugSet tables;
     tbl_Collectible := tbl_Collectible tables;
     tbl_DamageType := tbl_DamageType tables;
     tbl_SocketType := tbl_SocketType tables;
     tbl_SocketCategory := tbl_SocketCategory tables |}.

(** Auxiliary data in which the source table has an entry under [0]. *)
Definition d2aiData : D2AIData :=
  {| watermarkToSeason := ∅;
     watermarkToEvent := ∅;
     sourceToSeason := {[ "0" := 5%Z ]};
     seasons := {[ "100" := 7%Z ]};
     events := ∅;
     craftableHashes := [] |}.

(** A store that holds version [v2] and one concise record, and no
    auxiliary data. *)
Definition database : Database :=
  {| db_metadata := {[ "version" := "v2" ]};
     db_helperData_d2ai := None;
     db_helperData_damageTypeIcons := None;
     db_weapons := ∅;
     db_weaponsConcise :=
       bulkPut wc_hash (concise (transformWeapons tables d2aiData)) ∅ |}.

Definition world : World := {| db := database; requests := [] |}.

Definition metadata : ManifestMetadata :=
  {| meta_version := "v2"; meta_paths := ∅ |}.

(** A network on which every request succeeds. *)
Definition network : Network :=
  {| net_metadata := Some metadata;
     net_InventoryItem := λ _, Some (tbl_InventoryItem tables);
     net_PlugSet := λ _, Some (tbl_PlugSet tables);
     net_Collectible := λ _, Some (tbl_Collectible tables);
     net_DamageType := λ _, Some ∅;
     net_SocketType := λ _, Some ∅;
     net_SocketCategory := λ _, Some ∅;
     net_lookup := λ _, Some {[ "100" := 7%Z ]};
     net_hashes := λ _, Some [100%N] |}.

(** The same network, except that the first auxiliary file fails. *)
Definition degradedNetwork : Network :=
  {| net_metadata := Some metadata;
     net_InventoryItem := net_InventoryItem network;
     net_PlugSet := net_PlugSet network;
     net_Collectible := net_Collectible network;
     net_DamageType := net_DamageType network;
     net_SocketType := net_SocketType network;
     net_SocketCategory := net_SocketCategory network;
     net_lookup := λ url,
       if String.eqb url (D2AI_MODULE_URL +:+ "/watermark-to-season.json")
       then None else Some {[ "100" := 7%Z ]};
     net_hashes := λ _, Some [100%N] |}.

End Sample.

(** ** The rest of the pipeline: cache controls, store readers, display helpers *)

(** *** services/manifest/d2ai.ts *)

Definition clearD2AIDataCache : Async unit :=
  modify_db (λ d,
    {| db_metadata := db_metadata d;
       db_helperData_d2ai := None;
       db_helperData_damageTypeIcons := db_helperData_damageTypeIcons d;
       db_weapons := db_weapons d;
       db_weaponsConcise := db_weaponsConcise d |}).

Definition isD2AIDataCached : Async bool :=
  cached ← read_db db_helperData_d2ai;
  mret (match cached with Some _ => true | None => false end).

(** *** The manifest loader *)

Definition getCachedManifestVersion : Async (option string) :=
  read_db (λ d, db_metadata d !! "version").

Definition isManifestCached : Async bool :=
  count ← read_db (λ d, size (db_weaponsConcise d));
  mret (0 <? count)%nat.

(** *** services/db/manifest-operations.ts *)

Definition getWeaponByHash (hash : N) : Async (option WeaponFull) :=
  read_db (λ d, db_weapons d !! hash).

(** [bulkGet] answers one slot per requested hash; the filter drops the
    slots that are [undefined]. *)
Definition getWeaponsByHashes (hashes : list N) : Async (list WeaponFull) :=
  weapons ← read_db (λ d, (λ hash, db_weapons d !! hash) <$> hashes);
  mret (omap id weapons).

Definition getWeaponCount : Async nat :=
  read_db (λ d, size (db_weaponsConcise d)).

Definition getCachedVersion : Async (option string) :=
  read_db (λ d, db_metadata d !! "version").

Definition isInitialized : Async bool :=
  count ← read_db (λ d, size (db_weaponsConcise d));
  mret (0 <? count)%nat.

Definition clearWeaponData : Async unit :=
  modify_db (λ d,
    {| db_metadata := delete "version" (db_metadata d);
       db_helperData_d2ai := db_helperData_d2ai d;
       db_helperData_damageTypeIcons := db_helperData_damageTypeIcons d;
       db_weapons := ∅;
       db_weaponsConcise := ∅ |}).

(** *** hooks/useWeapons.ts *)

(** The query of [useMaxSeason]; [toArray] is the enumeration of the table. *)
Definition useMaxSeason : Async Z :=
  weapons ← read_db (λ d, (map_to_list (db_weaponsConcise d)).*2);
  mret (fold_left
          (λ max weapon,
             match wc_season weapon with
             | Some season => if (max <? season)%Z then season else max
             | None => max
             end)
          weapons 0%Z).

(** *** lib/destiny-utils.ts *)

Definition SLOT_TYPE_NAMES : gmap Z string :=
  {[ 0%Z := "Kinetic"; 1%Z := "Energy"; 2%Z := "Power" ]}.

Definition getSlotTypeName (slot : Z) : string :=
  default "Unknown" (SLOT_TYPE_NAMES !! slot).

Definition TIER_TYPE_SORT_ORDER : gmap Z Z :=
  {[ 6%Z := 6%Z; 5%Z := 5%Z; 4%Z := 4%Z; 3%Z := 3%Z; 2%Z := 2%Z; 1%Z := 1%Z;
     0%Z := 0%Z ]}.

Definition formatSeason (season : option Z) : string :=
  match season with
  | None => "—"
  | Some s => if (s =? 0)%Z then "Base" else "S" +:+ pretty s
  end.

Section Comparator.
(** [String.prototype.localeCompare] depends on the host's locale; the
    comparator is parametric in it. *)
Variable localeCompare : string → string → Z.

Definition compareWeapons (a b : WeaponConcise) : Z :=
  let seasonA := default (-1)%Z (wc_season a) in
  let seasonB := default (-1)%Z (wc_season b) in
  if negb (seasonA =? seasonB)%Z then (seasonB - seasonA)%Z
  else
    let tierOrderA := default 0%Z (TIER_TYPE_SORT_ORDER !! wc_tierType a) in
    let tierOrderB := default 0%Z (TIER_TYPE_SORT_ORDER !! wc_tierType b) in
    if negb (tierOrderA =? tierOrderB)%Z then (tierOrderB - tierOrderA)%Z
    else localeCompare (wc_name a) (wc_name b).
End Comparator.

(** ** Specification-side definitions for the sync protocol *)

(** What one table request answers: nothing when the metadata has no path
    for the table. *)
Definition tableAnswer {T} (respond : string → option T)
    (paths : gmap string string) (tableName : string) : option T :=
  match paths !! tableName with
  | Some path => if String.eqb path "" then None else respond (BUNGIE_NET +:+ path)
  | None => None
  end.

(** The request one table fetch issues: none without a path. *)
Definition tableRequest (paths : gmap string string) (tableName : string)
    : list Request :=
  match paths !! tableName with
  | Some path =>
      if String.eqb path "" then [] else [TableFetch tableName (BUNGIE_NET +:+ path)]
  | None => []
  end.

Definition tableNames : list string :=
  [ "DestinyInventoryItemDefinition"; "DestinyPlugSetDefinition";
    "DestinyCollectibleDefinition"; "DestinyDamageTypeDefinition";
    "DestinySocketTypeDefinition"; "DestinySocketCategoryDefinition" ].

Definition tableRequests (paths : gmap string string) : list Request :=
  tableNames ≫= tableRequest paths.

(** The six table answers together. *)
Definition tablesAnswer (net : Network) (paths : gmap string string)
    : option ManifestTables :=
  match tableAnswer (net_InventoryItem net) paths "DestinyInventoryItemDefinition",
        tableAnswer (net_PlugSet net) paths "DestinyPlugSetDefinition",
        tableAnswer (net_Collectible net) paths "DestinyCollectibleDefinition",
        tableAnswer (net_DamageType net) paths "DestinyDamageTypeDefinition",
        tableAnswer (net_SocketType net) paths "DestinySocketTypeDefinition",
        tableAnswer (net_SocketCategory net) paths "DestinySocketCategoryDefinition" with
  | Some a, Some b, Some c, Some d, Some e, Some f =>
      Some {| tbl_InventoryItem := a; tbl_PlugSet := b; tbl_Collectible := c;
              tbl_DamageType := d; tbl_SocketType := e; tbl_SocketCategory := f |}
  | _, _, _, _, _, _ => None
  end.

(** The auxiliary data a call of [loadD2AIData] returns on a given store,
    the store it leaves, and the requests it issues. *)
Definition d2aiResult (net : Network) (d : Database) : D2AIData :=
  match db_helperData_d2ai d with
  | Some cachedData => cachedData
  | None => default emptyD2AIData (auxResponses net)
  end.

Definition d2aiDatabase (net : Network) (d : Database) : Database :=
  match db_helperData_d2ai d, auxResponses net with
  | None, Some data => withD2AICache data d
  | _, _ => d
  end.

Definition d2aiRequests (d : Database) : list Request :=
  match db_helperData_d2ai d with
  | Some _ => []
  | None => auxRequests
  end.

(** Two stores that agree on everything but the auxiliary-data cache. *)
Definition sameManifestStore (d d' : Database) : Prop :=
  db_metadata d' = db_metadata d
  ∧ db_weapons d' = db_weapons d
  ∧ db_weaponsConcise d' = db_weaponsConcise d
  ∧ db_helperData_damageTypeIcons d' = db_helperData_damageTypeIcons d.

(** A store whose full records are filed under their own hash and whose
    concise records are the projections of the full ones. *)
Definition consistentStore (d : Database) : Prop :=
  (∀ hash weaponFull, db_weapons d !! hash = Some weaponFull → wf_hash weaponFull = hash)
  ∧ (∀ hash, db_weaponsConcise d !! hash = toWeaponConcise <$> db_weapons d !! hash).

(** A plug set that lists no plug hash twice. *)
Definition poolNoDup (plugSet : PlugSetDef) : Prop :=
  NoDup (pool_plugItemHash <$> pool_reusablePlugItems plugSet).

(** The flags of a perk are coherent: a curated-exclusive perk is curated
    and is not deprecated. *)
Definition coherentFlags (perk : Perk) : Prop :=
  curatedExclusive perk = true → isCurated perk = true ∧ isDeprecated perk = false.

(** An intrinsic that was built from an origin-trait plug of the item table. *)
Definition builtFromOriginTrait (tables : ManifestTables) (intrinsic : Intrinsic)
    : Prop :=
  ∃ (key : string) (plugDef : ItemDef),
    tbl_InventoryItem tables !! key = Some plugDef
    ∧ ItemCategoryHashes.WeaponModsOriginTraits
        ∈ default [] (def_itemCategoryHashes plugDef)
    ∧ intr_hash intrinsic = def_hash plugDef
    ∧ intr_name intrinsic = dp_name (def_displayProperties plugDef).

Definition isTracker (socket : SocketEntry) : bool :=
  (socketTypeHash socket =? SocketTypeHashes.Tracker)%N.

(** ** Sample network for a full download *)

Module SampleSync.

Definition metadata : ManifestMetadata :=
  {| meta_version := "v3";
     meta_paths :=
       list_to_map ((λ name, (name, "/common/destiny2_content/json/en/" +:+ name))
                      <$> tableNames) |}.

Definition network : Network :=
  {| net_metadata := Some metadata;
     net_InventoryItem := net_InventoryItem Sample.network;
     net_PlugSet := net_PlugSet Sample.network;
     net_Collectible := net_Collectible Sample.network;
     net_DamageType := net_DamageType Sample.network;
     net_SocketType := net_SocketType Sample.network;
     net_SocketCategory := net_SocketCategory Sample.network;
     net_lookup := net_lookup Sample.network;
     net_hashes := net_hashes Sample.network |}.

End SampleSync.

(** ** Sample manifest without the duplicated pool *)

Module SampleClean.

Definition tables : ManifestTables :=
  {| tbl_InventoryItem := tbl_InventoryItem Sample.tables;
     tbl_PlugSet := delete (jsString 502) (tbl_PlugSet Sample.tables);
     tbl_Collectible := tbl_Collectible Sample.tables;
     tbl_DamageType := tbl_DamageType Sample.tables;
     tbl_SocketType := tbl_SocketType Sample.tables;
     tbl_SocketCategory := tbl_SocketCategory Sample.tables |}.

(** A comparison of names by code units, standing for [localeCompare]. *)
Definition codeUnitCompare (x y : string) : Z :=
  match String.compare x y with
  | Eq => 0%Z
  | Lt => (-1)%Z
  | Gt => 1%Z
  end.

End SampleClean.

(** * Properties *)

(** ** Loops that push onto an array *)

Section Loops.
Context {A B : Type}.

(** A loop that pushes [y] for each element mapped to [Some y]. *)
Lemma fold_left_push (f : A → option B) (l : list A) (acc : list B) :
  fold_left (λ acc x, match f x with Some y => acc ++ [y] | None => acc end) l acc
  = acc ++ omap f l.
Proof.
  revert acc. induction l as [|x l IH]; intros acc; simpl.
  - by rewrite app_nil_r.
  - rewrite IH. destruct (f x); [by rewrite <- app_assoc | done].
Qed.

(** The same, for a loop body given as an arbitrary step function. *)
Lemma fold_left_push_ext (step : list B → A → list B) (f : A → option B)
    (l : list A) (acc : list B) :
  (∀ acc x, step acc x = match f x with Some y => acc ++ [y] | None => acc end) →
  fold_left step l acc = acc ++ omap f l.
Proof.
  intros Hstep. rewrite <- fold_left_push. revert acc.
  induction l as [|x l IH]; intros acc; simpl; [done|].
  by rewrite Hstep, IH.
Qed.
End Loops.

(** ** Sets as insertion-ordered lists *)

Lemma includes_true `{EqDecision A} (l : list A) (x : A) :
  includes l x = true ↔ x ∈ l.
Proof. unfold includes. apply bool_decide_eq_true. Qed.

Lemma includes_false `{EqDecision A} (l : list A) (x : A) :
  includes l x = false ↔ x ∉ l.
Proof. unfold includes. apply bool_decide_eq_false. Qed.

Lemma fold_set_add (l seen : list N) :
  fold_left set_add l seen = seen ++ firstOccurrences seen l.
Proof.
  revert seen. induction l as [|x l IH]; intros seen; simpl.
  - by rewrite app_nil_r.
  - rewrite IH. unfold set_add. destruct (includes seen x); [done|].
    by rewrite <- app_assoc.
Qed.

Lemma getCuratedPlugHashes_eq (socket : SocketEntry) :
  getCuratedPlugHashes socket
  = firstOccurrences [] (plugItemHash <$> reusablePlugItems socket).
Proof.
  unfold getCuratedPlugHashes.
  transitivity (fold_left set_add (plugItemHash <$> reusablePlugItems socket) []);
    [|apply (fold_set_add _ [])].
  generalize (@nil N). induction (reusablePlugItems socket) as [|p l IH]; intros s.
  - done.
  - simpl. apply IH.
Qed.

Lemma elem_of_firstOccurrences (l seen : list N) (x : N) :
  x ∈ firstOccurrences seen l ↔ x ∈ l ∧ x ∉ seen.
Proof.
  revert seen. induction l as [|y l IH]; intros seen; simpl.
  - rewrite elem_of_nil. tauto.
  - destruct (includes seen y) eqn:Hy.
    + apply includes_true in Hy. rewrite IH, elem_of_cons.
      split; [tauto|]. intros [[->|Hx] Hseen]; [done|tauto].
    + apply includes_false in Hy. rewrite elem_of_cons, IH, elem_of_cons.
      rewrite elem_of_app, list_elem_of_singleton.
      destruct (decide (x = y)) as [->|Hne]; tauto.
Qed.

Lemma NoDup_firstOccurrences (l seen : list N) :
  NoDup (firstOccurrences seen l).
Proof.
  revert seen. induction l as [|y l IH]; intros seen; simpl.
  - constructor.
  - destruct (includes seen y); [apply IH|].
    constructor; [|apply IH].
    rewrite elem_of_firstOccurrences, elem_of_app, list_elem_of_singleton. tauto.
Qed.

Lemma elem_of_getCuratedPlugHashes (socket : SocketEntry) (h : N) :
  h ∈ getCuratedPlugHashes socket ↔ h ∈ plugItemHash <$> reusablePlugItems socket.
Proof.
  rewrite getCuratedPlugHashes_eq, elem_of_firstOccurrences, elem_of_nil. tauto.
Qed.

(** ** The perk columns in closed form *)

Lemma omap_filter_negb {A B} (skip : A → bool) (f : A → option B) (l : list A) :
  omap (λ x, if skip x then None else f x) l
  = omap f (List.filter (λ x, negb (skip x)) l).
Proof.
  induction l as [|x l IH]; csimpl; [done|].
  destruct (skip x); csimpl; [done|]. by rewrite IH.
Qed.

Lemma length_omap_le {A B} (f : A → option B) (l : list A) :
  (length (omap f l) ≤ length l)%nat.
Proof.
  induction l as [|x l IH]; csimpl; [done|]. destruct (f x); simpl; lia.
Qed.

Lemma getPerksFromPlugSet_eq (socket : SocketEntry) (plugSet : PlugSetDef)
    (tables : ManifestTables) :
  getPerksFromPlugSet socket plugSet tables
  = omap (poolPerkOf socket tables) (pool_reusablePlugItems plugSet)
    ++ omap (exclusivePerkOf tables) (curatedOutsidePool socket plugSet).
Proof.
  unfold getPerksFromPlugSet, curatedOutsidePool.
  rewrite <- getCuratedPlugHashes_eq, <- omap_filter_negb.
  rewrite (fold_left_push_ext _ (poolPerkOf socket tables)).
  - rewrite app_nil_l. apply fold_left_push_ext.
    intros acc h. unfold exclusivePerkOf.
    destruct (includes _ h); [done|].
    destruct (tbl_InventoryItem tables !! jsString h) as [plugDef|]; [|done].
    by destruct (isValidPerk plugDef).
  - intros acc plug. unfold poolPerkOf.
    destruct (tbl_InventoryItem tables !! _) as [plugDef|]; [|done].
    destruct (isValidPerk plugDef); simpl; [|done].
    do 4 f_equal. unfold includes. apply bool_decide_ext.
    apply elem_of_getCuratedPlugHashes.
Qed.

Lemma getPerks_eq (itemDef : ItemDef) (tables : ManifestTables) :
  getPerks itemDef tables
  = omap (λ socket, perkColumnOf socket tables)
         (getSocketsByCategory itemDef SocketCategoryHashes.WeaponPerks).
Proof.
  unfold getPerks.
  rewrite (fold_left_push_ext _ (λ socket, perkColumnOf socket tables)); [done|].
  intros acc socket. unfold perkColumnOf.
  destruct (socketTypeHash socket =? _)%N; [done|].
  destruct (plugSetHashOf socket) as [h|].
  - destruct (tbl_PlugSet tables !! jsString h) as [plugSet|]; [|done].
    simpl. by destruct (0 <? length _)%nat.
  - destruct (0 <? length (reusablePlugItems socket))%nat.
    + simpl. by destruct (0 <? length _)%nat.
    + by destruct (getFixedPerk socket tables).
Qed.

Lemma getSocketsByCategory_eq (itemDef : ItemDef) (categoryHash : N) :
  getSocketsByCategory itemDef categoryHash
  = match def_sockets itemDef with
    | None => []
    | Some socketData =>
        match List.find (λ c, (socketCategoryHash c =? categoryHash)%N)
                        (socketCategories socketData) with
        | None => []
        | Some category =>
            omap (array_at (socketEntries socketData)) (socketIndexes category)
        end
    end.
Proof.
  unfold getSocketsByCategory.
  destruct (def_sockets itemDef) as [socketData|]; [|done].
  destruct (List.find _ _) as [category|]; [|done].
  by rewrite (fold_left_push (array_at (socketEntries socketData))).
Qed.

(** ** The batch loop in closed form *)

Lemma transformWeapons_eq (tables : ManifestTables) (d2aiData : D2AIData) :
  let weapons := List.filter isWeapon (Object_values (tbl_InventoryItem tables)) in
  let build itemDef :=
    buildWeaponFull itemDef tables d2aiData (buildCollectibleIndex tables) in
  full (transformWeapons tables d2aiData)
    = omap (λ itemDef, returned (build itemDef)) weapons
  ∧ concise (transformWeapons tables d2aiData)
    = toWeaponConcise <$> full (transformWeapons tables d2aiData).
Proof.
  intros weapons build. unfold transformWeapons. fold weapons.
  assert (Hloop : ∀ l accF accC,
    fold_left
      (λ '(full, concise) itemDef,
         match buildWeaponFull itemDef tables d2aiData (buildCollectibleIndex tables) with
         | Returned weaponFull =>
             (full ++ [weaponFull], concise ++ [toWeaponConcise weaponFull])
         | Threw => (full, concise)
         end)
      l (accF, accC)
    = (accF ++ omap (λ itemDef, returned (build itemDef)) l,
       accC ++ (toWeaponConcise <$> omap (λ itemDef, returned (build itemDef)) l))).
  { induction l as [|x l IH]; intros accF accC; csimpl.
    - by rewrite !app_nil_r.
    - change (build x)
        with (buildWeaponFull x tables d2aiData (buildCollectibleIndex tables)).
      destruct (buildWeaponFull x _ _ _); csimpl.
      + rewrite IH. by rewrite <- !app_assoc.
      + by rewrite IH. }
  rewrite Hloop. done.
Qed.

(** What a build that returns holds. *)
Lemma buildWeaponFull_Returned (itemDef : ItemDef) (tables : ManifestTables)
    (d2aiData : D2AIData) (index : gmap string N) (weaponFull : WeaponFull) :
  buildWeaponFull itemDef tables d2aiData index = Returned weaponFull →
  extractWeaponItem itemDef tables d2aiData index = Returned (wf_item weaponFull)
  ∧ wf_hash weaponFull = def_hash itemDef
  ∧ wf_frame weaponFull = getFrame itemDef tables
  ∧ wf_intrinsics weaponFull = getIntrinsics itemDef tables
  ∧ wf_perks weaponFull = getPerks itemDef tables.
Proof.
  unfold buildWeaponFull.
  destruct (extractWeaponItem itemDef tables d2aiData index); [|done].
  by intros [= <-].
Qed.

Lemma extractWeaponItem_Returned (itemDef : ItemDef) (tables : ManifestTables)
    (d2aiData : D2AIData) (index : gmap string N) (item : WeaponItem) :
  extractWeaponItem itemDef tables d2aiData index = Returned item →
  ∃ watermark,
    getWatermark itemDef = Returned watermark
    ∧ wi_hash item = def_hash itemDef
    ∧ wi_name item = dp_name (def_displayProperties itemDef)
    ∧ wi_slot item
      = getSlot (default 0%N (inv_bucketTypeHash <$> def_inventory itemDef))
    ∧ wi_source item = index !! jsString (def_hash itemDef)
    ∧ wi_season item = getSeason itemDef watermark (wi_source item) d2aiData
    ∧ wi_event item = getEvent itemDef watermark (wi_source item) d2aiData.
Proof.
  unfold extractWeaponItem.
  destruct (getWatermark itemDef) as [watermark|]; [|done].
  intros [= <-]. by exists watermark.
Qed.

Lemma getWatermark_Threw_build (itemDef : ItemDef) (tables : ManifestTables)
    (d2aiData : D2AIData) (index : gmap string N) :
  getWatermark itemDef = Threw →
  buildWeaponFull itemDef tables d2aiData index = Threw.
Proof.
  intros Hthrew. unfold buildWeaponFull, extractWeaponItem. by rewrite Hthrew.
Qed.

Lemma length_omap_total {A B} (f : A → option B) (l : list A) :
  Forall (λ x, is_Some (f x)) l → length (omap f l) = length l.
Proof.
  induction 1 as [|x l [y Hy] _ IH]; csimpl; [done|]. rewrite Hy. simpl. lia.
Qed.

(** The output has at most one record per qualifying item, and exactly one
    when the build of every qualifying item returns. *)
Lemma length_full (tables : ManifestTables) (d2aiData : D2AIData) :
  (length (full (transformWeapons tables d2aiData))
   ≤ length (List.filter isWeapon (Object_values (tbl_InventoryItem tables))))%nat
  ∧ ((∀ itemDef,
        itemDef ∈ Object_values (tbl_InventoryItem tables) →
        isWeapon itemDef = true →
        buildWeaponFull itemDef tables d2aiData (buildCollectibleIndex tables)
        ≠ Threw) →
     length (full (transformWeapons tables d2aiData))
     = length (List.filter isWeapon (Object_values (tbl_InventoryItem tables)))).
Proof.
  destruct (transformWeapons_eq tables d2aiData) as [-> _].
  split; [apply length_omap_le|]. intros Hreadable.
  apply length_omap_total, Forall_forall. intros itemDef Hin.
  apply list_elem_of_In, filter_In in Hin as [Hin Hweapon].
  apply list_elem_of_In in Hin.
  destruct (buildWeaponFull itemDef tables d2aiData (buildCollectibleIndex tables))
    as [weaponFull|] eqn:Hbuild; [by eexists|].
  by destruct (Hreadable itemDef).
Qed.

(** A record of the full output was built from a qualifying item. *)
Lemma elem_of_full (tables : ManifestTables) (d2aiData : D2AIData)
    (weaponFull : WeaponFull) :
  weaponFull ∈ full (transformWeapons tables d2aiData) →
  ∃ itemDef,
    isWeapon itemDef = true
    ∧ buildWeaponFull itemDef tables d2aiData (buildCollectibleIndex tables)
      = Returned weaponFull.
Proof.
  destruct (transformWeapons_eq tables d2aiData) as [-> _].
  intros [itemDef [Hin Hbuild]]%list_elem_of_omap.
  apply list_elem_of_In, filter_In in Hin as [_ Hweapon].
  exists itemDef. split; [done|].
  by destruct (buildWeaponFull itemDef _ _ _); simplify_eq/=.
Qed.

(** ** The validity filter *)

Lemma isValidPerk_true (plugDef : ItemDef) :
  isValidPerk plugDef = true →
  dp_name (def_displayProperties plugDef) ≠ ""
  ∧ (∀ p, def_plug plugDef = Some p →
          plug_plugCategoryHash p ∉ EMPTY_PLUG_CATEGORY_HASHES)
  ∧ (∀ inv, def_inventory plugDef = Some inv →
            inv_tierType inv ≠ ENHANCED_PERK_TIER_TYPE).
Proof.
  unfold isValidPerk, isEmptyPlug, isEnhancedPerk.
  rewrite !andb_true_iff, !negb_true_iff. intros [[Hname Hempty] Henh].
  split; [|split].
  - intros Heq. rewrite Heq in Hname. discriminate.
  - intros p Hp. rewrite Hp in Hempty. simpl in Hempty.
    by apply includes_false in Hempty.
  - intros inv Hinv. rewrite Hinv in Henh. simpl in Henh.
    by apply Z.eqb_neq in Henh.
Qed.

Lemma builtFromValidPlug_intro (tables : ManifestTables) (key : string)
    (plugDef : ItemDef) (options : PerkOptions) :
  tbl_InventoryItem tables !! key = Some plugDef →
  isValidPerk plugDef = true →
  builtFromValidPlug tables (createPerk plugDef options).
Proof.
  intros Hlook Hvalid. exists key, plugDef, options.
  split; [done|]. split; [done|]. by apply isValidPerk_true.
Qed.

(** The three construction paths share one step: look the plug up, test
    it, and create the perk. *)
Ltac resolve_plug tables :=
  let plugDef := fresh "plugDef" in
  let Hlook := fresh "Hlook" in
  let Hvalid := fresh "Hvalid" in
  destruct (tbl_InventoryItem tables !! _) as [plugDef|] eqn:Hlook; [|done];
  destruct (isValidPerk plugDef) eqn:Hvalid; [|done];
  intros [= <-]; by eapply builtFromValidPlug_intro.

Lemma poolPerkOf_valid (socket : SocketEntry) (tables : ManifestTables)
    (plug : PlugSetItem) (perk : Perk) :
  poolPerkOf socket tables plug = Some perk → builtFromValidPlug tables perk.
Proof. unfold poolPerkOf. resolve_plug tables. Qed.

Lemma exclusivePerkOf_valid (tables : ManifestTables) (h : N) (perk : Perk) :
  exclusivePerkOf tables h = Some perk → builtFromValidPlug tables perk.
Proof.
  unfold exclusivePerkOf. resolve_plug tables.
Qed.

Lemma getPerksFromPlugSet_valid (socket : SocketEntry) (plugSet : PlugSetDef)
    (tables : ManifestTables) :
  Forall (builtFromValidPlug tables) (getPerksFromPlugSet socket plugSet tables).
Proof.
  rewrite getPerksFromPlugSet_eq. apply Forall_app. split.
  - apply Forall_forall. intros perk [plug [_ Hperk]]%list_elem_of_omap.
    by eapply poolPerkOf_valid.
  - apply Forall_forall. intros perk [h [_ Hperk]]%list_elem_of_omap.
    by eapply exclusivePerkOf_valid.
Qed.

Lemma getFixedPerk_valid (socket : SocketEntry) (tables : ManifestTables)
    (perk : Perk) :
  getFixedPerk socket tables = Some perk → builtFromValidPlug tables perk.
Proof.
  unfold getFixedPerk. destruct (_ =? 0)%N; [done|]. resolve_plug tables.
Qed.

(** The loop of the direct list keeps three facts about its state: every
    perk is built from a valid plug, the hashes of the perks are the seen
    set, and the seen set has no duplicate. *)
Lemma getPerksFromReusablePlugItems_loop (socket : SocketEntry)
    (tables : ManifestTables) (l : list SocketPlugItem) (perks : list Perk)
    (seenHashes : list N) :
  Forall (builtFromValidPlug tables) perks →
  perk_hash <$> perks = seenHashes →
  NoDup seenHashes →
  let '(perks', seenHashes') :=
    fold_left
      (λ '(perks, seenHashes) plug,
         match tbl_InventoryItem tables !! jsString (plugItemHash plug) with
         | None => (perks, seenHashes)
         | Some plugDef =>
             if negb (isValidPerk plugDef) then (perks, seenHashes)
             else if includes seenHashes (def_hash plugDef) then (perks, seenHashes)
             else (perks ++
                     [createPerk plugDef
                        {| opt_isCurated :=
                             (plugItemHash plug =? singleInitialItemHash socket)%N;
                           opt_curatedExclusive := false;
                           opt_isDeprecated := false |}],
                   set_add seenHashes (def_hash plugDef))
         end)
      l (perks, seenHashes) in
  Forall (builtFromValidPlug tables) perks'
  ∧ perk_hash <$> perks' = seenHashes'
  ∧ NoDup seenHashes'.
Proof.
  revert perks seenHashes.
  induction l as [|plug l IH]; intros perks seenHashes Hvalid Hhashes Hnodup; simpl.
  - done.
  - destruct (tbl_InventoryItem tables !! _) as [plugDef|] eqn:Hlook;
      [|by apply IH].
    destruct (isValidPerk plugDef) eqn:Hv; simpl; [|by apply IH].
    destruct (includes seenHashes (def_hash plugDef)) eqn:Hseen; [by apply IH|].
    apply includes_false in Hseen. apply IH.
    + apply Forall_app. split; [done|]. constructor; [|constructor].
      by eapply builtFromValidPlug_intro.
    + unfold set_add. rewrite (proj2 (includes_false _ _) Hseen).
      rewrite fmap_app. by rewrite Hhashes.
    + unfold set_add. rewrite (proj2 (includes_false _ _) Hseen).
      apply NoDup_app. split; [done|]. split.
      * intros x Hx ->%list_elem_of_singleton. done.
      * apply NoDup_singleton.
Qed.

Lemma getPerksFromReusablePlugItems_valid (socket : SocketEntry)
    (tables : ManifestTables) :
  Forall (builtFromValidPlug tables) (getPerksFromReusablePlugItems socket tables).
Proof.
  unfold getPerksFromReusablePlugItems.
  pose proof (getPerksFromReusablePlugItems_loop socket tables
                (reusablePlugItems socket) [] []) as H.
  destruct (fold_left _ _ _) as [perks seen]. simpl.
  apply H; [constructor|done|constructor].
Qed.

(** The direct list collapses duplicate plug hashes to the first one. *)
Lemma getPerksFromReusablePlugItems_NoDup (socket : SocketEntry)
    (tables : ManifestTables) :
  NoDup (perk_hash <$> getPerksFromReusablePlugItems socket tables).
Proof.
  unfold getPerksFromReusablePlugItems.
  pose proof (getPerksFromReusablePlugItems_loop socket tables
                (reusablePlugItems socket) [] []) as H.
  destruct (fold_left _ _ _) as [perks seen]. simpl.
  destruct H as (_ & -> & Hnodup); [constructor|done|constructor|done].
Qed.

Lemma perkColumnOf_valid (socket : SocketEntry) (tables : ManifestTables)
    (column : list Perk) :
  perkColumnOf socket tables = Some column →
  column ≠ [] ∧ Forall (builtFromValidPlug tables) column.
Proof.
  unfold perkColumnOf. destruct (socketTypeHash socket =? _)%N; [done|].
  destruct (plugSetHashOf socket) as [h|].
  - destruct (tbl_PlugSet tables !! jsString h) as [plugSet|]; [|done].
    simpl. destruct (0 <? length _)%nat eqn:Hlen; [|done].
    intros [= <-]. split; [|apply getPerksFromPlugSet_valid].
    intros Hnil. rewrite Hnil in Hlen. done.
  - destruct (0 <? length (reusablePlugItems socket))%nat.
    + simpl. destruct (0 <? length _)%nat eqn:Hlen; [|done].
      intros [= <-]. split; [|apply getPerksFromReusablePlugItems_valid].
      intros Hnil. rewrite Hnil in Hlen. done.
    + destruct (getFixedPerk socket tables) as [perk|] eqn:Hfixed; [|done].
      intros [= <-]. split; [done|]. constructor; [|constructor].
      by eapply getFixedPerk_valid.
Qed.

(** ** Tables and the qualification filter *)

Lemma elem_of_Object_values {A} (t : gmap string A) (x : A) :
  x ∈ Object_values t ↔ ∃ key, t !! key = Some x.
Proof.
  unfold Object_values. rewrite list_elem_of_fmap. split.
  - intros [[key y] [-> Hin]]. exists key. by apply elem_of_map_to_list.
  - intros [key Hkey]. exists (key, x). split; [done|].
    by apply elem_of_map_to_list.
Qed.

Lemma isWeapon_qualifies (itemDef : ItemDef) :
  isWeapon itemDef = true ↔ qualifies itemDef.
Proof.
  unfold isWeapon, qualifies, WEAPON_BUCKET_HASHES.
  rewrite !andb_true_iff, !negb_true_iff, includes_true, includes_false.
  destruct (def_inventory itemDef) as [inv|]; simpl.
  - rewrite includes_true, String.eqb_neq. split.
    + intros ((((Hw & Hd) & Hb) & Hn) & Hr). eauto 10.
    + intros (Hw & Hd & (inv' & [= <-] & Hb) & Hn & Hr). eauto 10.
  - split.
    + intros ((((_ & _) & Hb) & _) & _). done.
    + intros (_ & _ & (inv' & Hinv & _) & _). done.
Qed.

Lemma elem_of_weapons (tables : ManifestTables) (itemDef : ItemDef) :
  itemDef ∈ List.filter isWeapon (Object_values (tbl_InventoryItem tables))
  ↔ (∃ key, tbl_InventoryItem tables !! key = Some itemDef) ∧ qualifies itemDef.
Proof.
  rewrite list_elem_of_In, filter_In, <- list_elem_of_In.
  by rewrite elem_of_Object_values, isWeapon_qualifies.
Qed.

(** ** The season and event chains *)

Lemma length_pos_nonempty (s : string) :
  (0 <? String.length s)%nat = true ↔ s ≠ "".
Proof.
  destruct s; simpl; [|done]. split; [done|]. intros H. by destruct H.
Qed.

Lemma getWatermark_Returned (itemDef : ItemDef) (watermark : option string) :
  getWatermark itemDef = Returned watermark → watermark = watermarkOf itemDef.
Proof.
  unfold getWatermark, watermarkOf.
  destruct (def_iconWatermark itemDef) as [[|c s]|]; simpl; [|by intros [= <-]|done].
  destruct (def_iconWatermarkShelved itemDef) as [[|c s]|]; simpl;
    [by intros [= <-]|by intros [= <-]|done].
Qed.

(** The watermark cannot be read exactly when the primary path is missing,
    or is empty while the shelved path is missing. *)
Lemma getWatermark_Threw (itemDef : ItemDef) :
  getWatermark itemDef = Threw
  ↔ def_iconWatermark itemDef = None
    ∨ (def_iconWatermark itemDef = Some ""
       ∧ def_iconWatermarkShelved itemDef = None).
Proof.
  unfold getWatermark.
  destruct (def_iconWatermark itemDef) as [[|c s]|]; simpl.
  - destruct (def_iconWatermarkShelved itemDef) as [[|c s]|]; simpl.
    + split; [done|]. by intros [?|[_ ?]].
    + split; [done|]. by intros [?|[_ ?]].
    + split; [|done]. intros _. by right.
  - split; [done|]. by intros [?|[? _]].
  - split; [|done]. intros _. by left.
Qed.

Lemma watermarkOf_truthy (itemDef : ItemDef) (w : string) :
  watermarkOf itemDef = Some w → truthyS (Some w) = true.
Proof.
  unfold watermarkOf. repeat case_decide; intros [= <-]; simpl;
    apply negb_true_iff; by apply String.eqb_neq.
Qed.

Lemma getSeason_eq (itemDef : ItemDef) (sourceHash : option N) (d2aiData : D2AIData) :
  getSeason itemDef (watermarkOf itemDef) sourceHash d2aiData
  = seasonChain itemDef sourceHash d2aiData.
Proof.
  unfold getSeason, seasonChain.
  destruct (watermarkOf itemDef) as [w|] eqn:Hw;
    [rewrite (watermarkOf_truthy _ _ Hw)|]; simpl.
  - destruct (watermarkToSeason d2aiData !! w); [done|].
    destruct sourceHash as [h|]; simpl; [|by destruct (seasons d2aiData !! _)].
    case_decide as Hh; [subst h; simpl; by destruct (seasons d2aiData !! _)|].
    apply N.eqb_neq in Hh. rewrite Hh. simpl.
    destruct (sourceToSeason d2aiData !! _); [done|].
    by destruct (seasons d2aiData !! _).
  - destruct sourceHash as [h|]; simpl; [|by destruct (seasons d2aiData !! _)].
    case_decide as Hh; [subst h; simpl; by destruct (seasons d2aiData !! _)|].
    apply N.eqb_neq in Hh. rewrite Hh. simpl.
    destruct (sourceToSeason d2aiData !! _); [done|].
    by destruct (seasons d2aiData !! _).
Qed.

Lemma getEvent_eq (itemDef : ItemDef) (sourceHash : option N) (d2aiData : D2AIData) :
  getEvent itemDef (watermarkOf itemDef) sourceHash d2aiData
  = eventChain itemDef d2aiData.
Proof.
  unfold getEvent, eventChain.
  destruct (watermarkOf itemDef) as [w|] eqn:Hw;
    [rewrite (watermarkOf_truthy _ _ Hw)|]; simpl.
  - destruct (watermarkToEvent d2aiData !! w); [done|].
    by destruct (events d2aiData !! _).
  - by destruct (events d2aiData !! _).
Qed.

(** ** The auxiliary loader *)

Lemma loadD2AIData_cached (net : Network) (w : World) (data : D2AIData) :
  db_helperData_d2ai (db w) = Some data →
  loadD2AIData net w = (Some data, w).
Proof.
  intros Hcache.
  unfold awaited, await, loadD2AIData, async, mbind, Async_bind, read_db.
  cbn [sync_part pending]. by rewrite Hcache.
Qed.

Lemma loadD2AIData_uncached (net : Network) (w : World) :
  db_helperData_d2ai (db w) = None →
  loadD2AIData net w
  = match auxResponses net with
    | Some data =>
        (Some data,
         {| db := withD2AICache data (db w); requests := requests w ++ auxRequests |})
    | None =>
        (Some emptyD2AIData, {| db := db w; requests := requests w ++ auxRequests |})
    end.
Proof.
  intros Hcache.
  unfold awaited, await, loadD2AIData, async, mbind, Async_bind, read_db.
  cbn [sync_part pending]. rewrite Hcache.
  unfold try_catch, await, all2, fetchD2AIFile, fetching, auxResponses, auxRequests,
    modify_db, mret, Async_ret, withD2AICache.
  cbn [sync_part pending db requests fmap list_fmap].
  repeat rewrite <- (app_assoc (requests w)). cbn [app].
  destruct (net_lookup net (D2AI_MODULE_URL +:+ "/" +:+ "watermark-to-season.json"));
  destruct (net_lookup net (D2AI_MODULE_URL +:+ "/" +:+ "watermark-to-event.json"));
  destruct (net_lookup net (D2AI_MODULE_URL +:+ "/" +:+ "source-to-season-v2.json"));
  destruct (net_lookup net (D2AI_MODULE_URL +:+ "/" +:+ "seasons.json"));
  destruct (net_lookup net (D2AI_MODULE_URL +:+ "/" +:+ "events.json"));
  destruct (net_hashes net (D2AI_MODULE_URL +:+ "/" +:+ "craftable-hashes.json"));
  reflexivity.
Qed.

(** * The claims *)

(** ** Manifest sync protocol *)

(** C1. When the persisted version token equals the version of the freshly
    fetched metadata, [loadManifest] fulfils with
    [{version, weaponCount, cached: true}], where [weaponCount] is the number
    of persisted concise records; the only request it has issued is the
    metadata request (no table fetch, no auxiliary-file fetch), and the
    database, hence the weapon records and the version token, is unchanged. *)
Theorem loadManifest_cached (net : Network) (w : World) (meta : ManifestMetadata) :
  net_metadata net = Some meta →
  db_metadata (db w) !! "version" = Some (meta_version meta) →
  ∃ w',
    loadManifest net w
    = (Some {| version := meta_version meta;
               weaponCount := size (db_weaponsConcise (db w));
               cached := true |}, w')
    ∧ db w' = db w
    ∧ requests w' = requests w ++ [MetadataFetch]
    ∧ List.filter isTableFetch (requests w') = List.filter isTableFetch (requests w)
    ∧ List.filter isAuxFetch (requests w') = List.filter isAuxFetch (requests w).
Proof.
  intros Hmeta Hversion.
  exists {| db := db w; requests := requests w ++ [MetadataFetch] |}.
  split; [|split; [done|split; [done|]]].
  - unfold loadManifest, fetchManifestMetadata, fetch_json, mbind, Async_bind,
      read_db, mret, Async_ret.
    rewrite Hmeta. cbn [db]. rewrite Hversion.
    by rewrite bool_decide_eq_true_2.
  - cbn [requests]. rewrite !List.filter_app. simpl. by rewrite !app_nil_r.
Qed.

Lemma loadManifest_cached_witness :
  net_metadata Sample.network = Some Sample.metadata
  ∧ db_metadata (db Sample.world) !! "version" = Some (meta_version Sample.metadata)
  ∧ ∃ w',
      loadManifest Sample.network Sample.world
      = (Some {| version := "v2"; weaponCount := 1; cached := true |}, w')
      ∧ db w' = db Sample.world
      ∧ requests w' = requests Sample.world ++ [MetadataFetch]
      ∧ List.filter isTableFetch (requests w')
        = List.filter isTableFetch (requests Sample.world)
      ∧ List.filter isAuxFetch (requests w')
        = List.filter isAuxFetch (requests Sample.world).
Proof.
  split; [reflexivity|]. split; [vm_compute; reflexivity|].
  apply (loadManifest_cached Sample.network Sample.world Sample.metadata);
    [reflexivity | vm_compute; reflexivity].
Defined.

(** ** Auxiliary lookup loader *)

(** C10. With no auxiliary data cached, if any of the six file fetches
    fails, [loadD2AIData] fulfils with the all-empty defaults and leaves the
    database as it was: nothing is written under [d2ai]. A later call
    therefore issues the six requests again, and returns the fetched data
    when they succeed, not the empty defaults. *)
Theorem loadD2AIData_failure_not_cached (net : Network) (w : World) :
  db_helperData_d2ai (db w) = None →
  auxResponses net = None →
  ∃ w',
    loadD2AIData net w = (Some emptyD2AIData, w')
    ∧ db w' = db w
    ∧ requests w' = requests w ++ auxRequests
    ∧ ∀ net',
        requests (loadD2AIData net' w').2 = requests w' ++ auxRequests
        ∧ ∀ data, auxResponses net' = Some data →
                  (loadD2AIData net' w').1 = Some data.
Proof.
  intros Hcache Hfail.
  exists {| db := db w; requests := requests w ++ auxRequests |}.
  split; [|split; [done|split; [done|]]].
  - by rewrite (loadD2AIData_uncached _ _ Hcache), Hfail.
  - intros net'. rewrite loadD2AIData_uncached by done.
    destruct (auxResponses net') as [data'|]; simpl.
    + split; [done|]. by intros data [= <-].
    + split; [done|]. by intros data [=].
Qed.

Lemma loadD2AIData_failure_not_cached_witness :
  db_helperData_d2ai (db Sample.world) = None
  ∧ auxResponses Sample.degradedNetwork = None
  ∧ ∃ w',
      loadD2AIData Sample.degradedNetwork Sample.world = (Some emptyD2AIData, w')
      ∧ db w' = db Sample.world
      ∧ requests w' = requests Sample.world ++ auxRequests
      ∧ ∀ net',
          requests (loadD2AIData net' w').2 = requests w' ++ auxRequests
          ∧ ∀ data, auxResponses net' = Some data →
                    (loadD2AIData net' w').1 = Some data.
Proof.
  split; [reflexivity|]. split; [vm_compute; reflexivity|].
  apply (loadD2AIData_failure_not_cached Sample.degradedNetwork Sample.world);
    [reflexivity | vm_compute; reflexivity].
Defined.

(** C3, as stated, fails: on a network where only the first auxiliary file
    fails, the five files that were fetched are discarded as well, so the
    result is not the per-file fallback. *)
Lemma loadD2AIData_per_file_fallback_fails :
  (loadD2AIData Sample.degradedNetwork Sample.world).1 = Some emptyD2AIData
  ∧ seasons (perFileFallback Sample.degradedNetwork) !! "100" = Some 7%Z
  ∧ (loadD2AIData Sample.degradedNetwork Sample.world).1
    ≠ Some (perFileFallback Sample.degradedNetwork).
Proof.
  split; [vm_compute; reflexivity|]. split; [vm_compute; reflexivity|].
  intros Heq.
  assert (Hseasons :
    seasons <$> (loadD2AIData Sample.degradedNetwork Sample.world).1
    = Some (seasons (perFileFallback Sample.degradedNetwork))) by by rewrite Heq.
  apply (f_equal (λ o, o ≫= (λ m : gmap string Z, m !! "100"))) in Hseasons.
  vm_compute in Hseasons. discriminate.
Qed.

(** C3, amended. For every combination of fetch outcomes, [loadD2AIData]
    fulfils (the load never fails). With data cached it returns the cache.
    Otherwise it returns the fetched data when all six files arrive, and the
    all-empty defaults as soon as one of them fails: the fallback is for the
    six files together, not per file. *)
Theorem loadD2AIData_degrades_as_a_whole (net : Network) (w : World) :
  ∃ data w',
    loadD2AIData net w = (Some data, w')
    ∧ data = match db_helperData_d2ai (db w) with
             | Some cachedData => cachedData
             | None =>
                 match auxResponses net with
                 | Some fetched => fetched
                 | None => emptyD2AIData
                 end
             end.
Proof.
  destruct (db_helperData_d2ai (db w)) as [cachedData|] eqn:Hcache.
  - exists cachedData, w. split; [by apply loadD2AIData_cached|done].
  - rewrite (loadD2AIData_uncached _ _ Hcache).
    destruct (auxResponses net) as [fetched|]; eauto.
Qed.

(** The six responses are joined: the joint response fails exactly when one
    of them does. *)
Lemma auxResponses_None (net : Network) :
  auxResponses net = None
  ↔ (∃ name,
       name ∈ [ "watermark-to-season.json"; "watermark-to-event.json";
                "source-to-season-v2.json"; "seasons.json"; "events.json" ]
       ∧ net_lookup net (D2AI_MODULE_URL +:+ "/" +:+ name) = None)
    ∨ net_hashes net (D2AI_MODULE_URL +:+ "/" +:+ "craftable-hashes.json") = None.
Proof.
  unfold auxResponses. split.
  - destruct (net_lookup net (_ +:+ "/" +:+ "watermark-to-season.json")) eqn:H1;
      [|intros _; left; exists "watermark-to-season.json"; split;
        [repeat constructor|done]].
    destruct (net_lookup net (_ +:+ "/" +:+ "watermark-to-event.json")) eqn:H2;
      [|intros _; left; exists "watermark-to-event.json"; split;
        [repeat constructor|done]].
    destruct (net_lookup net (_ +:+ "/" +:+ "source-to-season-v2.json")) eqn:H3;
      [|intros _; left; exists "source-to-season-v2.json"; split;
        [repeat constructor|done]].
    destruct (net_lookup net (_ +:+ "/" +:+ "seasons.json")) eqn:H4;
      [|intros _; left; exists "seasons.json"; split; [repeat constructor|done]].
    destruct (net_lookup net (_ +:+ "/" +:+ "events.json")) eqn:H5;
      [|intros _; left; exists "events.json"; split; [repeat constructor|done]].
    destruct (net_hashes net _) eqn:H6; [done|].
    intros _. by right.
  - intros [[name [Hname Hfail]]|Hfail].
    + repeat (apply elem_of_cons in Hname as [->|Hname]);
        [..|by apply elem_of_nil in Hname];
        rewrite Hfail; repeat case_match; done.
    + rewrite Hfail. repeat case_match; done.
Qed.

(** ** Weapon record builder *)

(** C4, as stated, fails: the copy of the sample weapon that has no
    watermark path passes the qualification filter, but reading its
    watermark throws, the exception is caught in the loop, and the weapon is
    in neither output. *)
Lemma qualifying_weapon_omitted_when_build_throws :
  tbl_InventoryItem Sample.tablesWithUnmarked !! jsString 102
    = Some Sample.unmarkedRifle
  ∧ qualifies Sample.unmarkedRifle
  ∧ buildWeaponFull Sample.unmarkedRifle Sample.tablesWithUnmarked Sample.d2aiData
                    (buildCollectibleIndex Sample.tablesWithUnmarked) = Threw
  ∧ (102%N ∉ wf_hash <$> full (transformWeapons Sample.tablesWithUnmarked
                                                  Sample.d2aiData))
  ∧ (102%N ∉ wc_hash <$> concise (transformWeapons Sample.tablesWithUnmarked
                                                     Sample.d2aiData)).
Proof.
  split; [vm_compute; reflexivity|].
  split; [apply isWeapon_qualifies; vm_compute; reflexivity|].
  split; [vm_compute; reflexivity|].
  assert (Hfull : wf_hash <$> full (transformWeapons Sample.tablesWithUnmarked
                                                      Sample.d2aiData) = [100%N])
    by (vm_compute; reflexivity).
  assert (Hconcise : wc_hash <$> concise (transformWeapons Sample.tablesWithUnmarked
                                                            Sample.d2aiData) = [100%N])
    by (vm_compute; reflexivity).
  rewrite Hfull, Hconcise.
  split; (apply not_elem_of_cons; split; [done|apply not_elem_of_nil]).
Qed.

(** C4, amended. An item definition of the item table passes the filter if
    and only if its category hashes contain the weapon marker (1) and not the
    dummy marker (3109687656), its bucket is one of the three weapon-slot
    buckets, its display name is non-empty and it is not redacted. The full
    records are the records of exactly the items that pass the filter and
    whose build returns, and the concise records are built from the same
    items: an item that fails a condition is in neither output, and neither
    is a qualifying item whose build throws, as it does when the watermark
    of the item cannot be read. *)
Theorem transformWeapons_qualification (tables : ManifestTables)
    (d2aiData : D2AIData) :
  let weapons := List.filter isWeapon (Object_values (tbl_InventoryItem tables)) in
  let build itemDef :=
    buildWeaponFull itemDef tables d2aiData (buildCollectibleIndex tables) in
  (∀ itemDef, isWeapon itemDef = true ↔ qualifies itemDef)
  ∧ (∀ itemDef,
       itemDef ∈ weapons
       ↔ (∃ key, tbl_InventoryItem tables !! key = Some itemDef) ∧ qualifies itemDef)
  ∧ full (transformWeapons tables d2aiData)
    = omap (λ itemDef, returned (build itemDef)) weapons
  ∧ concise (transformWeapons tables d2aiData)
    = omap (λ itemDef, toWeaponConcise <$> returned (build itemDef)) weapons
  ∧ (∀ itemDef, getWatermark itemDef = Threw → build itemDef = Threw).
Proof.
  intros weapons build.
  destruct (transformWeapons_eq tables d2aiData) as [Hfull Hconcise].
  split; [apply isWeapon_qualifies|]. split; [apply elem_of_weapons|].
  split; [done|]. split.
  - rewrite Hconcise, Hfull. apply list_fmap_omap.
  - intros itemDef. apply getWatermark_Threw_build.
Qed.

(** The redacted copy of the sample weapon is left out of both outputs. *)
Example redacted_weapon_excluded :
  isWeapon Sample.redactedRifle = false
  ∧ wf_hash <$> full (transformWeapons Sample.tables Sample.d2aiData) = [100%N]
  ∧ wc_hash <$> concise (transformWeapons Sample.tables Sample.d2aiData) = [100%N].
Proof. vm_compute. done. Qed.

(** C7. Every weapon the transformation emits yields one full and one
    concise record, at the same position of the two outputs (there are as
    many of the one as of the other, at most one per qualifying item), and
    the concise record is the projection [toWeaponConcise] of the full one:
    same hash, which is also the hash of the full record's item; the frame's
    name, or the empty string without a frame; and at every index [i], [j]
    the name of the full record's perk (both sides are undefined outside the
    range). *)
Theorem concise_is_projection_of_full (tables : ManifestTables)
    (d2aiData : D2AIData) :
  let result := transformWeapons tables d2aiData in
  length (concise result) = length (full result)
  ∧ (length (full result)
     ≤ length (List.filter isWeapon (Object_values (tbl_InventoryItem tables))))%nat
  ∧ concise result = toWeaponConcise <$> full result
  ∧ Forall (λ weaponFull, wf_hash weaponFull = wi_hash (wf_item weaponFull))
           (full result)
  ∧ ∀ weaponFull,
      wc_hash (toWeaponConcise weaponFull) = wf_hash weaponFull
      ∧ wc_frame (toWeaponConcise weaponFull)
        = match wf_frame weaponFull with
          | Some frame => frame_name frame
          | None => ""
          end
      ∧ ∀ i j : nat,
          wc_perks (toWeaponConcise weaponFull) !! i ≫= (λ column, column !! j)
          = perk_name <$> (wf_perks weaponFull !! i ≫= (λ column, column !! j)).
Proof.
  intros result. subst result.
  destruct (transformWeapons_eq tables d2aiData) as [Hfull Hconcise].
  split; [by rewrite Hconcise, length_fmap|].
  split; [rewrite Hfull; apply length_omap_le|].
  split; [done|].
  split.
  - apply Forall_forall. intros weaponFull (itemDef & _ & Hbuild)%elem_of_full.
    apply buildWeaponFull_Returned in Hbuild as (Hitem & -> & _).
    by apply extractWeaponItem_Returned in Hitem as (_ & _ & -> & _).
  - intros weaponFull. split; [done|]. split; [simpl; by destruct (wf_frame weaponFull)|].
    intros i j. simpl. rewrite list_lookup_fmap.
    destruct (wf_perks weaponFull !! i) as [column|]; simpl; [|done].
    by rewrite list_lookup_fmap.
Qed.

(** ** Socket and plug resolution *)

(** C8. No perk column of [getPerks] is empty: the columns are the columns
    the sockets of the weapon-perks category contribute, in socket order, a
    socket never contributes an empty column (it contributes none when every
    candidate is filtered out), and so every column of every emitted full
    record holds at least one perk. *)
Theorem perk_columns_are_never_empty (itemDef : ItemDef) (tables : ManifestTables) :
  getPerks itemDef tables
    = omap (λ socket, perkColumnOf socket tables)
           (getSocketsByCategory itemDef SocketCategoryHashes.WeaponPerks)
  ∧ (∀ socket, perkColumnOf socket tables ≠ Some [])
  ∧ Forall (λ column, column ≠ []) (getPerks itemDef tables)
  ∧ ∀ d2aiData,
      Forall (λ weaponFull, Forall (λ column, column ≠ []) (wf_perks weaponFull))
             (full (transformWeapons tables d2aiData)).
Proof.
  assert (Hsocket : ∀ socket, perkColumnOf socket tables ≠ Some []).
  { intros socket Hcol. by destruct (perkColumnOf_valid _ _ _ Hcol). }
  assert (Hcolumns : ∀ item, Forall (λ column, column ≠ []) (getPerks item tables)).
  { intros item. rewrite getPerks_eq. apply Forall_forall.
    intros column [socket [_ Hcol]]%list_elem_of_omap.
    by destruct (perkColumnOf_valid _ _ _ Hcol). }
  split; [apply getPerks_eq|]. split; [done|]. split; [done|].
  intros d2aiData. apply Forall_forall.
  intros weaponFull (item & _ & Hbuild)%elem_of_full.
  apply buildWeaponFull_Returned in Hbuild as (_ & _ & _ & _ & ->). apply Hcolumns.
Qed.

(** C9. Every perk entry of every column was built from a plug definition
    of the item table whose display name is non-empty, whose plug category
    is not an empty-plug category and whose inventory tier is not the
    enhanced tier (3). This holds on each construction path (plug set, direct
    reusable list, single fixed plug), hence for [getPerks] and for every
    emitted full record; and when the table files definitions under their own
    hash, the definition a perk's hash refers to is such a definition. *)
Theorem perk_columns_hold_only_valid_plugs (tables : ManifestTables) :
  (∀ socket plugSet,
     Forall (builtFromValidPlug tables) (getPerksFromPlugSet socket plugSet tables))
  ∧ (∀ socket,
       Forall (builtFromValidPlug tables) (getPerksFromReusablePlugItems socket tables))
  ∧ (∀ socket perk,
       getFixedPerk socket tables = Some perk → builtFromValidPlug tables perk)
  ∧ (∀ itemDef,
       Forall (Forall (builtFromValidPlug tables)) (getPerks itemDef tables))
  ∧ (∀ d2aiData,
       Forall (λ weaponFull,
                 Forall (Forall (builtFromValidPlug tables)) (wf_perks weaponFull))
              (full (transformWeapons tables d2aiData)))
  ∧ (keyedByHash tables →
     ∀ itemDef column perk,
       column ∈ getPerks itemDef tables → perk ∈ column →
       ∃ plugDef,
         tbl_InventoryItem tables !! jsString (perk_hash perk) = Some plugDef
         ∧ isValidPerk plugDef = true).
Proof.
  assert (Hcolumns : ∀ itemDef,
    Forall (Forall (builtFromValidPlug tables)) (getPerks itemDef tables)).
  { intros itemDef. rewrite getPerks_eq. apply Forall_forall.
    intros column [socket [_ Hcol]]%list_elem_of_omap.
    by destruct (perkColumnOf_valid _ _ _ Hcol). }
  split; [intros; apply getPerksFromPlugSet_valid|].
  split; [intros; apply getPerksFromReusablePlugItems_valid|].
  split; [intros socket perk; apply getFixedPerk_valid|].
  split; [done|]. split.
  - intros d2aiData. apply Forall_forall.
    intros weaponFull (item & _ & Hbuild)%elem_of_full.
    apply buildWeaponFull_Returned in Hbuild as (_ & _ & _ & _ & ->). apply Hcolumns.
  - intros Hkeyed itemDef column perk Hcolumn Hperk.
    pose proof (Hcolumns itemDef) as Hall.
    rewrite Forall_forall in Hall. specialize (Hall _ Hcolumn).
    rewrite Forall_forall in Hall.
    destruct (Hall _ Hperk) as (key & plugDef & options & Hlook & -> & Hname & Hcat & Htier).
    exists plugDef. rewrite (Hkeyed _ _ Hlook) in Hlook. split; [done|].
    unfold isValidPerk, isEmptyPlug, isEnhancedPerk.
    rewrite !andb_true_iff, !negb_true_iff. split; [split|].
    + by apply length_pos_nonempty.
    + destruct (def_plug plugDef) as [p|] eqn:Hp; simpl; [|done].
      apply includes_false. by apply Hcat.
    + destruct (def_inventory plugDef) as [inv|] eqn:Hinv; simpl; [|done].
      apply Z.eqb_neq. by apply Htier.
Qed.

(** C2, as stated, fails: on the sample socket whose pool lists an enhanced
    perk and whose curated list names a hash without a definition, the
    emitted column has neither of them, while the column as stated has an
    entry for each pool entry and each curated hash outside the pool. *)
Lemma plugSet_column_not_as_stated :
  ∃ plugSet column,
    socketTypeHash Sample.filteredSocket ≠ SocketTypeHashes.Tracker
    ∧ plugSetHashOf Sample.filteredSocket = Some 501%N
    ∧ tbl_PlugSet Sample.tables !! jsString 501 = Some plugSet
    ∧ perkColumnOf Sample.filteredSocket Sample.tables = Some column
    ∧ column ∈ getPerks Sample.rifle Sample.tables
    ∧ perkSummary <$> column = [(11%N, true, false, false)]
    ∧ plugSetColumn_asStated Sample.filteredSocket plugSet
      = [(11%N, true, false, false); (12%N, false, false, false);
         (14%N, true, true, false)]
    ∧ perkSummary <$> column ≠ plugSetColumn_asStated Sample.filteredSocket plugSet.
Proof.
  exists (Sample.mkPool [(11, true); (12, true)]%N).
  eexists. split; [done|]. split; [reflexivity|].
  split; [vm_compute; reflexivity|]. split; [vm_compute; reflexivity|].
  split; [|split; [vm_compute; reflexivity|split; [vm_compute; reflexivity|]]].
  - apply list_elem_of_lookup. exists 1%nat. vm_compute. reflexivity.
  - vm_compute. discriminate.
Qed.

(** C2, amended. For a socket that is not a tracker and references a plug
    set (the randomized reference when present, else the reusable one) that
    the plug-set table holds, the perks of the column are: for each pool
    entry whose definition is found and passes the validity filter, in pool
    order, a perk with [isCurated] true iff the entry's hash is in the
    socket's own reusable-plug list, [isDeprecated] true iff
    [currentlyCanRoll] is false, and [curatedExclusive] false; followed, for
    each distinct hash of the socket's own list that is absent from the pool
    and whose definition is found and passes the validity filter, in order of
    first occurrence, by a perk with [isCurated] and [curatedExclusive] true
    and [isDeprecated] false. The column is emitted when it is non-empty. *)
Theorem plugSet_column (socket : SocketEntry) (tables : ManifestTables)
    (plugSetHash : N) (plugSet : PlugSetDef) :
  socketTypeHash socket ≠ SocketTypeHashes.Tracker →
  plugSetHashOf socket = Some plugSetHash →
  tbl_PlugSet tables !! jsString plugSetHash = Some plugSet →
  let column :=
    omap (poolPerkOf socket tables) (pool_reusablePlugItems plugSet)
    ++ omap (exclusivePerkOf tables) (curatedOutsidePool socket plugSet) in
  (∀ randomized, randomizedPlugSetHash socket = Some randomized →
                 plugSetHash = randomized)
  ∧ getPerksFromPlugSet socket plugSet tables = column
  ∧ perkColumnOf socket tables = (if decide (column = []) then None else Some column)
  ∧ ∀ itemDef,
      socket ∈ getSocketsByCategory itemDef SocketCategoryHashes.WeaponPerks →
      column ≠ [] → column ∈ getPerks itemDef tables.
Proof.
  intros Htracker Hhash Hset column.
  assert (Hcol : perkColumnOf socket tables
                 = if decide (column = []) then None else Some column).
  { unfold perkColumnOf. apply N.eqb_neq in Htracker. rewrite Htracker, Hhash, Hset.
    simpl. rewrite getPerksFromPlugSet_eq. subst column.
    destruct (omap _ _ ++ omap _ _); simpl; repeat case_decide; done. }
  split; [|split; [apply getPerksFromPlugSet_eq|split; [done|]]].
  - intros randomized Hr. unfold plugSetHashOf in Hhash. rewrite Hr in Hhash.
    by injection Hhash.
  - intros itemDef Hsocket Hne. rewrite getPerks_eq. apply list_elem_of_omap.
    exists socket. split; [done|]. rewrite Hcol. by case_decide.
Qed.

Lemma plugSet_column_witness :
  let plugSet := Sample.mkPool [(11, true); (15, true); (13, false)]%N in
  let column :=
    omap (poolPerkOf Sample.poolSocket Sample.tables) (pool_reusablePlugItems plugSet)
    ++ omap (exclusivePerkOf Sample.tables)
            (curatedOutsidePool Sample.poolSocket plugSet) in
  socketTypeHash Sample.poolSocket ≠ SocketTypeHashes.Tracker
  ∧ plugSetHashOf Sample.poolSocket = Some 500%N
  ∧ tbl_PlugSet Sample.tables !! jsString 500 = Some plugSet
  ∧ (∀ randomized, randomizedPlugSetHash Sample.poolSocket = Some randomized →
                   500%N = randomized)
  ∧ getPerksFromPlugSet Sample.poolSocket plugSet Sample.tables = column
  ∧ perkColumnOf Sample.poolSocket Sample.tables
    = (if decide (column = []) then None else Some column)
  ∧ ∀ itemDef,
      Sample.poolSocket ∈ getSocketsByCategory itemDef SocketCategoryHashes.WeaponPerks →
      column ≠ [] → column ∈ getPerks itemDef Sample.tables.
Proof.
  intros plugSet column.
  split; [discriminate|]. split; [reflexivity|]. split; [vm_compute; reflexivity|].
  apply (plugSet_column Sample.poolSocket Sample.tables 500 plugSet);
    [discriminate | reflexivity | vm_compute; reflexivity].
Defined.

(** The pool {A, B, C} of the design document, with A curated and C no
    longer rolling, gives the column A (curated), B, C (deprecated). *)
Example plugSet_column_of_the_design_document :
  perkSummary <$> getPerksFromPlugSet Sample.poolSocket
                    (Sample.mkPool [(11, true); (15, true); (13, false)]%N)
                    Sample.tables
  = [(11%N, true, false, false); (15%N, false, false, false);
     (13%N, false, false, true)].
Proof. vm_compute. reflexivity. Qed.

(** C6: the plug-set path keeps duplicates. On the sample socket whose pool
    lists plug 13 twice, the emitted column carries hash 13 twice, whereas
    the path of the direct reusable list never repeats a hash. *)
Theorem plugSet_column_keeps_duplicates :
  (∃ column,
     perkColumnOf Sample.duplicateSocket Sample.tables = Some column
     ∧ column ∈ getPerks Sample.rifle Sample.tables
     ∧ perkSummary <$> column
       = [(13%N, false, false, false); (13%N, false, false, true)]
     ∧ ¬ NoDup (perk_hash <$> column))
  ∧ ∀ socket tables,
      NoDup (perk_hash <$> getPerksFromReusablePlugItems socket tables).
Proof.
  split; [|apply getPerksFromReusablePlugItems_NoDup].
  eexists. split; [vm_compute; reflexivity|]. split; [|split].
  - apply list_elem_of_lookup. exists 2%nat. vm_compute. reflexivity.
  - vm_compute. reflexivity.
  - vm_compute. intros Hnd. apply NoDup_cons in Hnd as [Hnotin _].
    apply Hnotin. constructor.
Qed.

(** ** Attribute derivation *)

(** C5, as stated, fails: an item whose collectible carries source hash 0 is
    not looked up in the source table, even when that table has an entry
    under 0; the derived season comes from the item-hash table instead. *)
Lemma season_chain_not_as_stated :
  ∃ item,
    extractWeaponItem Sample.rifle Sample.tables Sample.d2aiData
                      (buildCollectibleIndex Sample.tables) = Returned item
    ∧ wi_source item = Some 0%N
    ∧ wi_season item = Some 7%Z
    ∧ seasonChain_asStated Sample.rifle (wi_source item) Sample.d2aiData = Some 5%Z
    ∧ wi_season item
      ≠ seasonChain_asStated Sample.rifle (wi_source item) Sample.d2aiData.
Proof.
  eexists. split; [vm_compute; reflexivity|].
  vm_compute. split; [done|]. split; [done|]. split; [done|]. discriminate.
Qed.

(** C5, amended. The watermark of an item is its primary watermark path if
    non-empty, else its shelved path if non-empty, else none (it cannot be
    read, and the item has no derived attributes, when the primary path is
    missing, or is empty while the shelved path is missing). The derived
    season is the first hit of: the watermark in the watermark-to-season
    map; the source hash, when there is one and it is not 0, in the
    source-to-season map; the item's hash in the item-to-season map; and
    null without a hit. The derived event is the first hit of the watermark
    in the watermark-to-event map and the item's hash in the item-to-event
    map. *)
Theorem season_and_event_chains (itemDef : ItemDef) (d2aiData : D2AIData) :
  (getWatermark itemDef = Threw
   ↔ def_iconWatermark itemDef = None
     ∨ (def_iconWatermark itemDef = Some ""
        ∧ def_iconWatermarkShelved itemDef = None))
  ∧ (∀ watermark,
       getWatermark itemDef = Returned watermark →
       watermark = watermarkOf itemDef
       ∧ ∀ sourceHash,
           getSeason itemDef watermark sourceHash d2aiData
           = seasonChain itemDef sourceHash d2aiData
           ∧ getEvent itemDef watermark sourceHash d2aiData
             = eventChain itemDef d2aiData)
  ∧ ∀ tables collectibleByItemHash item,
      extractWeaponItem itemDef tables d2aiData collectibleByItemHash
        = Returned item →
      wi_source item = collectibleByItemHash !! jsString (def_hash itemDef)
      ∧ wi_season item = seasonChain itemDef (wi_source item) d2aiData
      ∧ wi_event item = eventChain itemDef d2aiData.
Proof.
  split; [apply getWatermark_Threw|]. split.
  - intros watermark ->%getWatermark_Returned. split; [done|].
    intros sourceHash. split; [apply getSeason_eq|apply getEvent_eq].
  - intros tables index item
      (watermark & ->%getWatermark_Returned & _ & _ & _ & Hsource & -> & ->)
      %extractWeaponItem_Returned.
    split; [done|]. split; [apply getSeason_eq|apply getEvent_eq].
Qed.

(** * Further properties of the pipeline *)

(** ** The sync protocol, step by step *)

Lemma world_eta (w : World) :
  {| db := db w; requests := requests w ++ [] |} = w.
Proof. destruct w. simpl. by rewrite app_nil_r. Qed.

Lemma fetchTable_sync {T} (respond : string → option T)
    (paths : gmap string string) (tableName : string) (w : World) :
  sync_part (fetchTable respond paths tableName) w
  = {| db := db w; requests := requests w ++ tableRequest paths tableName |}.
Proof.
  unfold fetchTable, tableRequest, rejected, fetching.
  destruct (paths !! tableName) as [path|]; [|by rewrite world_eta].
  destruct (String.eqb path ""); [by rewrite world_eta|done].
Qed.

Lemma fetchTable_pending {T} (respond : string → option T)
    (paths : gmap string string) (tableName : string) (w : World) :
  pending (fetchTable respond paths tableName) w
  = (tableAnswer respond paths tableName, w).
Proof.
  unfold fetchTable, tableAnswer, rejected, fetching, throw.
  destruct (paths !! tableName) as [path|]; [|done].
  by destruct (String.eqb path "").
Qed.

Lemma fetchTable_run {T} (respond : string → option T)
    (paths : gmap string string) (tableName : string) (w : World) :
  fetchTable respond paths tableName w
  = (tableAnswer respond paths tableName,
     {| db := db w; requests := requests w ++ tableRequest paths tableName |}).
Proof.
  unfold awaited, await. by rewrite fetchTable_pending, fetchTable_sync.
Qed.

(** Calling [fetchManifestTables] issues the requests; settling it later
    changes nothing. *)
Lemma fetchManifestTables_sync (net : Network) (paths : gmap string string)
    (w : World) :
  sync_part (fetchManifestTables net paths) w
  = {| db := db w; requests := requests w ++ tableRequests paths |}.
Proof.
  unfold fetchManifestTables, and_then, all2. cbn [sync_part].
  rewrite !fetchTable_sync. cbn [db requests].
  unfold tableRequests, tableNames. cbn [mbind list_bind].
  by rewrite app_nil_r, !app_assoc.
Qed.

Lemma fetchManifestTables_pending (net : Network) (paths : gmap string string)
    (w : World) :
  pending (fetchManifestTables net paths) w = (tablesAnswer net paths, w).
Proof.
  unfold fetchManifestTables, and_then, all2, mbind, Async_bind.
  cbn [sync_part pending]. rewrite !fetchTable_pending. unfold tablesAnswer.
  destruct (tableAnswer (net_InventoryItem net) paths _); [|reflexivity].
  destruct (tableAnswer (net_PlugSet net) paths _); [|reflexivity].
  destruct (tableAnswer (net_Collectible net) paths _); [|reflexivity].
  destruct (tableAnswer (net_DamageType net) paths _); [|reflexivity].
  destruct (tableAnswer (net_SocketType net) paths _); [|reflexivity].
  destruct (tableAnswer (net_SocketCategory net) paths _); reflexivity.
Qed.

Lemma fetchManifestTables_run (net : Network) (paths : gmap string string)
    (w : World) :
  fetchManifestTables net paths w
  = (tablesAnswer net paths,
     {| db := db w; requests := requests w ++ tableRequests paths |}).
Proof.
  unfold awaited, await.
  by rewrite fetchManifestTables_pending, fetchManifestTables_sync.
Qed.

Lemma loadD2AIData_run (net : Network) (w : World) :
  loadD2AIData net w
  = (Some (d2aiResult net (db w)),
     {| db := d2aiDatabase net (db w);
        requests := requests w ++ d2aiRequests (db w) |}).
Proof.
  unfold d2aiResult, d2aiDatabase, d2aiRequests.
  destruct (db_helperData_d2ai (db w)) as [cachedData|] eqn:Hcache.
  - rewrite (loadD2AIData_cached _ _ _ Hcache). by rewrite world_eta.
  - rewrite (loadD2AIData_uncached _ _ Hcache).
    by destruct (auxResponses net).
Qed.

Lemma d2aiDatabase_same (net : Network) (d : Database) :
  sameManifestStore d (d2aiDatabase net d).
Proof.
  unfold d2aiDatabase, sameManifestStore.
  destruct (db_helperData_d2ai d), (auxResponses net); done.
Qed.

(** The whole of [loadManifest] in closed form. When a table is missing
    the call rejects with the table requests issued and the store as it was:
    what the auxiliary load still does comes after the rejection. *)
Lemma loadManifest_run (net : Network) (w : World) :
  loadManifest net w
  = match net_metadata net with
    | None => (None, {| db := db w; requests := requests w ++ [MetadataFetch] |})
    | Some meta =>
        if bool_decide (db_metadata (db w) !! "version" = Some (meta_version meta))
        then (Some {| version := meta_version meta;
                      weaponCount := size (db_weaponsConcise (db w));
                      cached := true |},
              {| db := db w; requests := requests w ++ [MetadataFetch] |})
        else
          match tablesAnswer net (meta_paths meta) with
          | None =>
              (None,
               {| db := db w;
                  requests :=
                    requests w ++ [MetadataFetch] ++ tableRequests (meta_paths meta) |})
          | Some tables =>
              let weapons := transformWeapons tables (d2aiResult net (db w)) in
              (Some {| version := meta_version meta;
                       weaponCount := length (full weapons);
                       cached := false |},
               {| db := persist weapons (meta_version meta)
                                (extractDamageTypeIcons tables)
                                (d2aiDatabase net (db w));
                  requests :=
                    requests w ++ [MetadataFetch] ++ tableRequests (meta_paths meta)
                               ++ d2aiRequests (db w) |})
          end
    end.
Proof.
  unfold loadManifest, fetchManifestMetadata, fetch_json, mbind, Async_bind,
    read_db, mret, Async_ret.
  destruct (net_metadata net) as [meta|]; [|done]. cbn [db requests].
  case_bool_decide; [done|].
  unfold await, all2. cbn [sync_part pending].
  rewrite fetchManifestTables_sync, fetchManifestTables_pending.
  cbn [db requests]. rewrite <- !app_assoc.
  destruct (tablesAnswer net (meta_paths meta)); [|done].
  pose proof (loadD2AIData_run net
    {| db := db w;
       requests := requests w ++ [MetadataFetch] ++ tableRequests (meta_paths meta) |})
    as Hd2ai.
  unfold awaited, await in Hd2ai. cbn [sync_part db requests] in Hd2ai.
  change (sync_part (loadD2AIData net) ?x) with x in Hd2ai.
  change (sync_part (loadD2AIData net) ?x) with x.
  rewrite Hd2ai. cbn [db requests]. by rewrite <- !app_assoc.
Qed.

(** ** Bulk writes *)

Lemma bulkPut_fmap {A B} (f : A → B) (keyA : A → N) (keyB : B → N)
    (records : list A) (table : gmap N A) :
  (∀ r, keyB (f r) = keyA r) →
  bulkPut keyB (f <$> records) (f <$> table) = f <$> bulkPut keyA records table.
Proof.
  intros Hkey. unfold bulkPut. revert table.
  induction records as [|r records IH]; intros table; simpl; [done|].
  rewrite Hkey, <- fmap_insert. apply IH.
Qed.

Lemma bulkPut_keyed {A} (key : A → N) (records : list A) (table : gmap N A) :
  (∀ h r, table !! h = Some r → key r = h) →
  ∀ h r, bulkPut key records table !! h = Some r → key r = h.
Proof.
  unfold bulkPut. revert table.
  induction records as [|x records IH]; intros table Htable; simpl; [done|].
  apply IH. intros h r. rewrite lookup_insert. case_decide; [|by apply Htable].
  by intros [= <-].
Qed.

Lemma bulkPut_size {A} (key : A → N) (records : list A) (table : gmap N A) :
  (size (bulkPut key records table) ≤ size table + length records)%nat.
Proof.
  unfold bulkPut. revert table.
  induction records as [|x records IH]; intros table; simpl; [lia|].
  etrans; [apply IH|].
  destruct (table !! key x) as [y|] eqn:Hx.
  - rewrite map_size_insert_Some by done. lia.
  - rewrite map_size_insert_None by done. lia.
Qed.

Lemma persist_consistent (weapons : TransformResult) (remoteVersion : string)
    (icons : gmap Z string) (d : Database) :
  concise weapons = toWeaponConcise <$> full weapons →
  consistentStore (persist weapons remoteVersion icons d)
  ∧ (size (db_weaponsConcise (persist weapons remoteVersion icons d))
     ≤ length (full weapons))%nat.
Proof.
  intros Hconcise. unfold consistentStore, persist. simpl. split; [split|].
  - apply bulkPut_keyed. intros h r. by rewrite lookup_empty.
  - intros hash. rewrite Hconcise.
    rewrite <- (fmap_empty toWeaponConcise).
    by rewrite (bulkPut_fmap toWeaponConcise wf_hash wc_hash), lookup_fmap.
  - rewrite Hconcise. etrans; [apply bulkPut_size|].
    rewrite map_size_empty, length_fmap. lia.
Qed.

(** ** The sync protocol *)

(** X1. When the stored version differs from the remote one and the six
    tables arrive, the sync fulfils whatever the auxiliary files do: it
    reports [cached: false], the remote version and the number of weapons
    that [transformWeapons] built from the downloaded tables, and it stores
    the version and the damage-type icons. That number is at most the number
    of qualifying items of the item table, and equal to it when the build of
    every qualifying item returns. *)
Theorem loadManifest_downloads_when_tables_arrive (net : Network) (w : World)
    (meta : ManifestMetadata) (tables : ManifestTables) :
  net_metadata net = Some meta →
  db_metadata (db w) !! "version" ≠ Some (meta_version meta) →
  tablesAnswer net (meta_paths meta) = Some tables →
  ∃ w',
    loadManifest net w
    = (Some {| version := meta_version meta;
               weaponCount :=
                 length (full (transformWeapons tables (d2aiResult net (db w))));
               cached := false |}, w')
    ∧ (length (full (transformWeapons tables (d2aiResult net (db w))))
       ≤ length (List.filter isWeapon (Object_values (tbl_InventoryItem tables))))%nat
    ∧ ((∀ itemDef,
          itemDef ∈ Object_values (tbl_InventoryItem tables) →
          isWeapon itemDef = true →
          buildWeaponFull itemDef tables (d2aiResult net (db w))
                          (buildCollectibleIndex tables) ≠ Threw) →
       length (full (transformWeapons tables (d2aiResult net (db w))))
       = length (List.filter isWeapon (Object_values (tbl_InventoryItem tables))))
    ∧ db_metadata (db w') !! "version" = Some (meta_version meta)
    ∧ db_helperData_damageTypeIcons (db w') = Some (extractDamageTypeIcons tables)
    ∧ requests w'
      = requests w ++ [MetadataFetch] ++ tableRequests (meta_paths meta)
                   ++ d2aiRequests (db w).
Proof.
  intros Hmeta Hversion Htables. rewrite loadManifest_run, Hmeta, Htables.
  rewrite bool_decide_eq_false_2 by done. cbn zeta.
  destruct (length_full tables (d2aiResult net (db w))) as [Hle Heq].
  eexists. split; [reflexivity|]. split; [exact Hle|]. split; [exact Heq|].
  cbn [db requests persist db_metadata db_helperData_damageTypeIcons].
  by rewrite lookup_insert_eq.
Qed.

Lemma loadManifest_downloads_when_tables_arrive_witness :
  net_metadata SampleSync.network = Some SampleSync.metadata
  ∧ db_metadata (db Sample.world) !! "version"
    ≠ Some (meta_version SampleSync.metadata)
  ∧ tablesAnswer SampleSync.network (meta_paths SampleSync.metadata)
    = Some Sample.tables
  ∧ ∃ w',
      loadManifest SampleSync.network Sample.world
      = (Some {| version := meta_version SampleSync.metadata;
                 weaponCount :=
                   length (full (transformWeapons Sample.tables
                             (d2aiResult SampleSync.network (db Sample.world))));
                 cached := false |}, w')
      ∧ db_metadata (db w') !! "version" = Some (meta_version SampleSync.metadata)
      ∧ requests w'
        = requests Sample.world ++ [MetadataFetch]
            ++ tableRequests (meta_paths SampleSync.metadata)
            ++ d2aiRequests (db Sample.world).
Proof.
  split; [reflexivity|]. split; [vm_compute; discriminate|].
  split; [vm_compute; reflexivity|].
  destruct (loadManifest_downloads_when_tables_arrive
              SampleSync.network Sample.world SampleSync.metadata Sample.tables)
    as (w' & Hrun & _ & _ & Hversion & _ & Hrequests);
    [reflexivity | vm_compute; discriminate | vm_compute; reflexivity|].
  exists w'. by split; [|split].
Defined.

(** X2. Whenever [loadManifest] fulfils, the stored version token is the
    version it returned; so the next call that meets the same remote
    version is a cache hit: it returns [cached: true] with the number of
    stored concise records, issues the metadata request only and leaves the
    store as it is. *)
Theorem loadManifest_then_cache_hit (net : Network) (w w' : World)
    (result : ManifestLoadResult) :
  loadManifest net w = (Some result, w') →
  db_metadata (db w') !! "version" = Some (version result)
  ∧ ∀ net' meta',
      net_metadata net' = Some meta' →
      meta_version meta' = version result →
      loadManifest net' w'
      = (Some {| version := version result;
                 weaponCount := size (db_weaponsConcise (db w'));
                 cached := true |},
         {| db := db w'; requests := requests w' ++ [MetadataFetch] |}).
Proof.
  intros Hrun.
  assert (Hstored : db_metadata (db w') !! "version" = Some (version result)).
  { rewrite loadManifest_run in Hrun.
    destruct (net_metadata net) as [meta|]; [|done].
    case_bool_decide as Hhit.
    - by injection Hrun as <- <-.
    - destruct (tablesAnswer net (meta_paths meta)) as [tables|]; [|done].
      injection Hrun as <- <-. simpl. by rewrite lookup_insert_eq. }
  split; [done|]. intros net' meta' Hmeta' Hsame.
  rewrite loadManifest_run, Hmeta', Hsame.
  by rewrite bool_decide_eq_true_2.
Qed.

Lemma loadManifest_then_cache_hit_witness :
  ∃ w' result,
    loadManifest SampleSync.network Sample.world = (Some result, w')
    ∧ db_metadata (db w') !! "version" = Some (version result)
    ∧ ∀ net' meta',
        net_metadata net' = Some meta' →
        meta_version meta' = version result →
        loadManifest net' w'
        = (Some {| version := version result;
                   weaponCount := size (db_weaponsConcise (db w'));
                   cached := true |},
           {| db := db w'; requests := requests w' ++ [MetadataFetch] |}).
Proof.
  destruct (loadManifest SampleSync.network Sample.world) as [[result|] w'] eqn:Hrun;
    [|vm_compute in Hrun; discriminate].
  exists w', result. split; [reflexivity|].
  exact (loadManifest_then_cache_hit SampleSync.network Sample.world w' result Hrun).
Defined.

(** X3. When [loadManifest] rejects, whether on the metadata or on a table,
    the stored version token, the full and concise weapon records and the
    damage-type icons are what they were before the call. *)
Theorem loadManifest_rejected_keeps_store (net : Network) (w w' : World) :
  loadManifest net w = (None, w') →
  sameManifestStore (db w) (db w').
Proof.
  rewrite loadManifest_run.
  destruct (net_metadata net) as [meta|]; [|by intros [= <-]].
  case_bool_decide; [done|].
  destruct (tablesAnswer net (meta_paths meta)); [done|].
  by intros [= <-].
Qed.

Lemma loadManifest_rejected_keeps_store_witness :
  ∃ w',
    loadManifest Sample.degradedNetwork (clearWeaponData Sample.world).2 = (None, w')
    ∧ sameManifestStore (db (clearWeaponData Sample.world).2) (db w').
Proof.
  eexists. split; [vm_compute; reflexivity|].
  apply (loadManifest_rejected_keeps_store Sample.degradedNetwork
           (clearWeaponData Sample.world).2).
  vm_compute. reflexivity.
Defined.



(** X5. A forced refresh is never answered from the cache: when it fulfils,
    the result has [cached: false] and the returned version is stored; when
    it rejects, the version token is gone, so that the next load cannot be a
    cache hit either, while the weapon records are still those from before. *)
Theorem forceManifestRefresh_never_cached (net : Network) (w : World) :
  match forceManifestRefresh net w with
  | (Some result, w') =>
      cached result = false
      ∧ db_metadata (db w') !! "version" = Some (version result)
  | (None, w') =>
      db_metadata (db w') !! "version" = None
      ∧ db_weapons (db w') = db_weapons (db w)
      ∧ db_weaponsConcise (db w') = db_weaponsConcise (db w)
  end.
Proof.
  unfold forceManifestRefresh, mbind, Async_bind, modify_db.
  rewrite loadManifest_run. cbn [db requests db_metadata].
  destruct (net_metadata net) as [meta|].
  - rewrite bool_decide_eq_false_2 by by rewrite lookup_delete_eq.
    cbn zeta. destruct (tablesAnswer net (meta_paths meta)) as [tables|].
    + split; [done|]. simpl. by rewrite lookup_insert_eq.
    + simpl. by rewrite lookup_delete_eq.
  - simpl. by rewrite lookup_delete_eq.
Qed.

(** ** The auxiliary cache *)

(** X6. A load of the auxiliary data that finds all six files stores them,
    and from then on every load returns the stored data without a request,
    whatever the network would answer. *)
Theorem loadD2AIData_success_is_cached (net : Network) (w : World)
    (data : D2AIData) :
  db_helperData_d2ai (db w) = None →
  auxResponses net = Some data →
  ∃ w',
    loadD2AIData net w = (Some data, w')
    ∧ requests w' = requests w ++ auxRequests
    ∧ isD2AIDataCached w' = (Some true, w')
    ∧ ∀ net', loadD2AIData net' w' = (Some data, w').
Proof.
  intros Hcache Haux. rewrite (loadD2AIData_uncached _ _ Hcache), Haux.
  eexists. split; [reflexivity|]. split; [done|]. split; [done|].
  intros net'. by apply loadD2AIData_cached.
Qed.

Lemma loadD2AIData_success_is_cached_witness :
  db_helperData_d2ai (db Sample.world) = None
  ∧ auxResponses Sample.network = Some (perFileFallback Sample.network)
  ∧ ∃ w',
      loadD2AIData Sample.network Sample.world
      = (Some (perFileFallback Sample.network), w')
      ∧ requests w' = requests Sample.world ++ auxRequests
      ∧ isD2AIDataCached w' = (Some true, w')
      ∧ ∀ net', loadD2AIData net' w' = (Some (perFileFallback Sample.network), w').
Proof.
  split; [reflexivity|]. split; [vm_compute; reflexivity|].
  apply (loadD2AIData_success_is_cached Sample.network Sample.world);
    [reflexivity | vm_compute; reflexivity].
Defined.

(** X7. Clearing the auxiliary cache touches nothing else in the store,
    makes [isD2AIDataCached] answer false, and makes the next load issue the
    six requests again, whatever was cached before. *)
Theorem clearD2AIDataCache_forces_refetch (net : Network) (w : World) :
  let w1 := (clearD2AIDataCache w).2 in
  sameManifestStore (db w) (db w1)
  ∧ isD2AIDataCached w1 = (Some false, w1)
  ∧ (loadD2AIData net w1).1 = Some (default emptyD2AIData (auxResponses net))
  ∧ requests (loadD2AIData net w1).2 = requests w ++ auxRequests.
Proof.
  intros w1. split; [done|]. split; [done|].
  rewrite (loadD2AIData_uncached net w1) by done.
  by destruct (auxResponses net).
Qed.

(** ** The persisted records *)

(** X8. After a sync that downloaded, every stored full record is filed
    under its own hash, the concise record stored under a hash is the
    projection of the full record stored under it (so both tables hold the
    same hashes), and the number of stored records is at most the reported
    weapon count. *)
Theorem download_leaves_consistent_store (net : Network) (w w' : World)
    (result : ManifestLoadResult) :
  loadManifest net w = (Some result, w') →
  cached result = false →
  consistentStore (db w')
  ∧ dom (db_weaponsConcise (db w')) = dom (db_weapons (db w'))
  ∧ (size (db_weaponsConcise (db w')) ≤ weaponCount result)%nat.
Proof.
  rewrite loadManifest_run.
  destruct (net_metadata net) as [meta|]; [|done].
  case_bool_decide; [by intros [= <- <-]|].
  destruct (tablesAnswer net (meta_paths meta)) as [tables|]; [|done].
  intros [= <- <-] _. cbn [db weaponCount].
  destruct (transformWeapons_eq tables (d2aiResult net (db w))) as [_ Hproj].
  destruct (persist_consistent _ (meta_version meta) (extractDamageTypeIcons tables)
              (d2aiDatabase net (db w)) Hproj) as [Hcons Hsize].
  split; [done|]. split; [|done].
  apply set_eq. intros hash. rewrite !elem_of_dom.
  destruct Hcons as [_ Hlook]. rewrite Hlook. by rewrite fmap_is_Some.
Qed.

Lemma download_leaves_consistent_store_witness :
  ∃ w' result,
    loadManifest SampleSync.network Sample.world = (Some result, w')
    ∧ cached result = false
    ∧ consistentStore (db w')
    ∧ dom (db_weaponsConcise (db w')) = dom (db_weapons (db w'))
    ∧ (size (db_weaponsConcise (db w')) ≤ weaponCount result)%nat.
Proof.
  destruct (loadManifest SampleSync.network Sample.world) as [[result|] w'] eqn:Hrun;
    [|vm_compute in Hrun; discriminate].
  assert (Hcached : cached result = false).
  { apply (f_equal (λ p, cached <$> p.1)) in Hrun. vm_compute in Hrun.
    by injection Hrun. }
  exists w', result. split; [reflexivity|]. split; [exact Hcached|].
  exact (download_leaves_consistent_store SampleSync.network Sample.world w' result
           Hrun Hcached).
Defined.

(** X9. On a store whose full records are filed under their own hash,
    [getWeaponsByHashes] answers, in the order of the request, exactly the
    requested hashes that are stored; hashes without a record are dropped
    and the store is not changed. *)
Theorem getWeaponsByHashes_found (hashes : list N) (w : World) :
  (∀ hash weaponFull,
     db_weapons (db w) !! hash = Some weaponFull → wf_hash weaponFull = hash) →
  ∃ weapons,
    getWeaponsByHashes hashes w = (Some weapons, w)
    ∧ wf_hash <$> weapons
      = List.filter (λ hash, bool_decide (is_Some (db_weapons (db w) !! hash))) hashes
    ∧ Forall (λ weaponFull,
                db_weapons (db w) !! wf_hash weaponFull = Some weaponFull) weapons.
Proof.
  intros Hkeyed. eexists. split; [reflexivity|].
  induction hashes as [|hash hashes [IH1 IH2]]; csimpl; [done|].
  destruct (db_weapons (db w) !! hash) as [weaponFull|] eqn:Hlook; csimpl.
  - rewrite (Hkeyed _ _ Hlook). split; [by f_equal|].
    constructor; [|done]. by rewrite (Hkeyed _ _ Hlook).
  - done.
Qed.

Lemma getWeaponsByHashes_found_witness :
  let w :=
    {| db := persist (transformWeapons Sample.tables Sample.d2aiData) "v3" ∅
                     Sample.database;
       requests := [] |} in
  ∃ weapons,
    getWeaponsByHashes [7; 100; 101]%N w = (Some weapons, w)
    ∧ wf_hash <$> weapons
      = List.filter (λ hash, bool_decide (is_Some (db_weapons (db w) !! hash)))
                    [7; 100; 101]%N
    ∧ Forall (λ weaponFull,
                db_weapons (db w) !! wf_hash weaponFull = Some weaponFull) weapons.
Proof.
  intros w. apply (getWeaponsByHashes_found [7; 100; 101]%N w).
  apply (bulkPut_keyed wf_hash). intros h r. by rewrite lookup_empty.
Defined.

(** X10. After [clearWeaponData] the store counts no weapon and holds no
    version token, the auxiliary cache and the icons are kept, and the next
    [loadManifest] that fulfils has downloaded ([cached: false]). *)
Theorem clearWeaponData_resets (w : World) :
  let w1 := (clearWeaponData w).2 in
  isInitialized w1 = (Some false, w1)
  ∧ getWeaponCount w1 = (Some 0%nat, w1)
  ∧ getCachedVersion w1 = (Some None, w1)
  ∧ db_helperData_d2ai (db w1) = db_helperData_d2ai (db w)
  ∧ db_helperData_damageTypeIcons (db w1) = db_helperData_damageTypeIcons (db w)
  ∧ ∀ net result w',
      loadManifest net w1 = (Some result, w') → cached result = false.
Proof.
  simpl. unfold isInitialized, getWeaponCount, getCachedVersion, read_db, mbind,
    Async_bind, mret, Async_ret. cbn [db db_weaponsConcise db_metadata].
  rewrite map_size_empty, lookup_delete_eq.
  split; [done|]. split; [done|]. split; [done|]. split; [done|]. split; [done|].
  intros net result w'. rewrite loadManifest_run. cbn [db db_metadata].
  destruct (net_metadata net) as [meta|]; [|done].
  rewrite bool_decide_eq_false_2 by by rewrite lookup_delete_eq.
  cbn zeta. destruct (tablesAnswer net (meta_paths meta)); [|done].
  by intros [= <- _].
Qed.

(** ** Loops that fill a map *)

Section MapLoops.
Context {A V : Type} `{Countable K}.
Implicit Types (f : A → option (K * V)) (l : list A) (m : gmap K V).

(** A loop that stores [v] under [k] for each element mapped to [(k, v)]:
    a binding of the result was there before or comes from an element. *)
Lemma fold_insert_lookup (step : gmap K V → A → gmap K V) f l m k v :
  (∀ m x, step m x = match f x with Some (k, v) => <[k:=v]> m | None => m end) →
  fold_left step l m !! k = Some v →
  m !! k = Some v ∨ ∃ x, x ∈ l ∧ f x = Some (k, v).
Proof.
  intros Hstep. revert m.
  induction l as [|x l IH]; intros m; simpl; [by left|].
  intros [Hm|(y & Hy & Hfy)]%IH.
  - rewrite Hstep in Hm. destruct (f x) as [[k' v']|] eqn:Hfx; [|by left].
    rewrite lookup_insert in Hm. case_decide as Hk; [|by left].
    injection Hm as <-. subst k'. right. exists x. split; [constructor|done].
  - right. exists y. split; [by constructor|done].
Qed.

(** Every key an element maps to is bound in the result. *)
Lemma fold_insert_is_Some (step : gmap K V → A → gmap K V) f l m k :
  (∀ m x, step m x = match f x with Some (k, v) => <[k:=v]> m | None => m end) →
  (is_Some (m !! k) ∨ ∃ x v, x ∈ l ∧ f x = Some (k, v)) →
  is_Some (fold_left step l m !! k).
Proof.
  intros Hstep. revert m.
  induction l as [|x l IH]; intros m; simpl.
  - intros [Hm|(y & v & Hy & _)]; [done|]. by apply elem_of_nil in Hy.
  - intros [Hm|(y & v & Hy & Hfy)]; apply IH.
    + left. rewrite Hstep. destruct (f x) as [[k' v']|]; [|done].
      rewrite lookup_insert. by case_decide.
    + apply elem_of_cons in Hy as [->|Hy].
      * left. rewrite Hstep, Hfy. rewrite lookup_insert_eq. eauto.
      * right. eauto.
Qed.
End MapLoops.

(** ** Attribute derivation, continued *)

Lemma jsString_inj (h h' : N) : jsString h = jsString h' → h = h'.
Proof. unfold jsString. apply pretty_N_inj. Qed.

Lemma isWeapon_bucket (itemDef : ItemDef) :
  isWeapon itemDef = true →
  ∃ inv, def_inventory itemDef = Some inv
         ∧ inv_bucketTypeHash inv ∈ WEAPON_BUCKET_HASHES.
Proof.
  intros (_ & _ & Hbucket & _)%isWeapon_qualifies. exact Hbucket.
Qed.

(** X11. The slot of a bucket is -1 exactly for the buckets that are not
    weapon slots; so every emitted weapon, full and concise, has slot 0, 1
    or 2, and a slot name other than [Unknown]. *)
Theorem emitted_weapons_have_a_slot (tables : ManifestTables) (d2aiData : D2AIData) :
  (∀ bucketHash, getSlot bucketHash = (-1)%Z ↔ bucketHash ∉ WEAPON_BUCKET_HASHES)
  ∧ Forall (λ weaponFull,
              wi_slot (wf_item weaponFull) ∈ [0; 1; 2]%Z
              ∧ getSlotTypeName (wi_slot (wf_item weaponFull)) ≠ "Unknown")
           (full (transformWeapons tables d2aiData))
  ∧ Forall (λ weaponConcise,
              wc_slot weaponConcise ∈ [0; 1; 2]%Z
              ∧ getSlotTypeName (wc_slot weaponConcise) ≠ "Unknown")
           (concise (transformWeapons tables d2aiData)).
Proof.
  assert (Hslot : ∀ itemDef,
    isWeapon itemDef = true →
    let slot :=
      getSlot (default 0%N (inv_bucketTypeHash <$> def_inventory itemDef)) in
    slot ∈ [0; 1; 2]%Z ∧ getSlotTypeName slot ≠ "Unknown").
  { intros itemDef (inv & -> & Hin)%isWeapon_bucket. simpl.
    unfold WEAPON_BUCKET_HASHES in Hin.
    repeat (apply elem_of_cons in Hin as [->|Hin]);
      [..|by apply elem_of_nil in Hin];
      (split; [vm_compute; repeat constructor | vm_compute; discriminate]). }
  destruct (transformWeapons_eq tables d2aiData) as [_ Hconcise].
  split; [|split].
  - intros bucketHash. unfold getSlot, WEAPON_BUCKET_HASHES,
      BucketHashes.KineticWeapons, BucketHashes.EnergyWeapons,
      BucketHashes.PowerWeapons.
    rewrite !not_elem_of_cons.
    destruct (N.eqb_spec bucketHash 1498876634); [split; [done|tauto]|].
    destruct (N.eqb_spec bucketHash 2465295065); [split; [done|tauto]|].
    destruct (N.eqb_spec bucketHash 953998645); [split; [done|tauto]|].
    split; [|done]. intros _. repeat split; try done. apply not_elem_of_nil.
  - apply Forall_forall.
    intros weaponFull (itemDef & Hweapon & Hbuild)%elem_of_full.
    apply buildWeaponFull_Returned in Hbuild as [Hitem _].
    apply extractWeaponItem_Returned in Hitem as (_ & _ & _ & _ & -> & _).
    by apply Hslot.
  - rewrite Hconcise. apply Forall_fmap, Forall_forall.
    intros weaponFull (itemDef & Hweapon & Hbuild)%elem_of_full.
    apply buildWeaponFull_Returned in Hbuild as [Hitem _].
    apply extractWeaponItem_Returned in Hitem as (_ & _ & _ & _ & Hitem & _).
    simpl. rewrite Hitem. by apply Hslot.
Qed.

(** X12. The reverse index binds the hash of an item exactly when a
    collectible with a non-zero item hash names it, and then to the source
    hash of such a collectible (0 when it has none); so the index has no
    entry for a weapon, and the record built for it no source, exactly when
    no collectible names the weapon. *)
Theorem collectible_index (tables : ManifestTables) (hash : N) :
  (∀ sourceHash,
     buildCollectibleIndex tables !! jsString hash = Some sourceHash →
     ∃ key collectible,
       tbl_Collectible tables !! key = Some collectible
       ∧ coll_itemHash collectible = hash
       ∧ hash ≠ 0%N
       ∧ sourceHash = default 0%N (coll_sourceHash collectible))
  ∧ (∀ key collectible,
       tbl_Collectible tables !! key = Some collectible →
       coll_itemHash collectible = hash →
       hash ≠ 0%N →
       is_Some (buildCollectibleIndex tables !! jsString hash))
  ∧ (buildCollectibleIndex tables !! jsString hash = None
     ↔ ¬ ∃ key collectible,
           tbl_Collectible tables !! key = Some collectible
           ∧ coll_itemHash collectible = hash ∧ hash ≠ 0%N)
  ∧ (∀ itemDef d2aiData item,
       def_hash itemDef = hash →
       extractWeaponItem itemDef tables d2aiData (buildCollectibleIndex tables)
       = Returned item →
       wi_source item = buildCollectibleIndex tables !! jsString hash
       ∧ (wi_source item = None
          ↔ ¬ ∃ key collectible,
                tbl_Collectible tables !! key = Some collectible
                ∧ coll_itemHash collectible = hash ∧ hash ≠ 0%N)).
Proof.
  set (f := λ collectible : CollectibleDef,
    if negb (coll_itemHash collectible =? 0)%N
    then Some (jsString (coll_itemHash collectible),
               default 0%N (coll_sourceHash collectible))
    else None).
  assert (Hstep : ∀ (m : gmap string N) (collectible : CollectibleDef),
    (if negb (coll_itemHash collectible =? 0)%N
     then <[jsString (coll_itemHash collectible) :=
              default 0%N (coll_sourceHash collectible)]> m
     else m)
    = match f collectible with Some (k, v) => <[k:=v]> m | None => m end).
  { intros m collectible. unfold f. by destruct (negb _). }
  assert (Hfrom : ∀ sourceHash,
    buildCollectibleIndex tables !! jsString hash = Some sourceHash →
    ∃ key collectible,
      tbl_Collectible tables !! key = Some collectible
      ∧ coll_itemHash collectible = hash
      ∧ hash ≠ 0%N
      ∧ sourceHash = default 0%N (coll_sourceHash collectible)).
  { intros sourceHash Hlook. unfold buildCollectibleIndex in Hlook.
    apply (fold_insert_lookup _ f _ _ _ _ Hstep) in Hlook
      as [Hempty|(collectible & Hin & Hf)]; [by rewrite lookup_empty in Hempty|].
    apply elem_of_Object_values in Hin as [key Hkey].
    unfold f in Hf. destruct (N.eqb_spec (coll_itemHash collectible) 0); [done|].
    simpl in Hf. injection Hf as Hk <-. apply jsString_inj in Hk. subst hash.
    by exists key, collectible. }
  assert (Hto : ∀ key collectible,
    tbl_Collectible tables !! key = Some collectible →
    coll_itemHash collectible = hash →
    hash ≠ 0%N →
    is_Some (buildCollectibleIndex tables !! jsString hash)).
  { intros key collectible Hkey Hhash Hne. unfold buildCollectibleIndex.
    apply (fold_insert_is_Some _ f _ _ _ Hstep). right.
    exists collectible, (default 0%N (coll_sourceHash collectible)). split.
    - apply elem_of_Object_values. by exists key.
    - unfold f. rewrite Hhash. apply N.eqb_neq in Hne. by rewrite Hne. }
  assert (Hnone : buildCollectibleIndex tables !! jsString hash = None
                  ↔ ¬ ∃ key collectible,
                        tbl_Collectible tables !! key = Some collectible
                        ∧ coll_itemHash collectible = hash ∧ hash ≠ 0%N).
  { split.
    - intros Hnone (key & collectible & Hkey & Hitem & Hne).
      destruct (Hto _ _ Hkey Hitem Hne) as [s Hs]. by rewrite Hs in Hnone.
    - intros Hno. destruct (buildCollectibleIndex tables !! jsString hash)
        as [s|] eqn:Hs; [|done].
      destruct (Hfrom s eq_refl) as (key & collectible & Hkey & Hitem & Hne & _).
      destruct Hno. by exists key, collectible. }
  split; [done|]. split; [done|]. split; [done|].
  intros itemDef d2aiData item Hhash Hitem.
  apply extractWeaponItem_Returned in Hitem as (_ & _ & _ & _ & _ & Hsource & _).
  rewrite Hsource, Hhash. by split.
Qed.

(** X13. The damage-type icons bind an enumeration value exactly when some
    damage-type definition with that value has a non-empty icon path, and
    then to the Bungie.net URL of the icon of such a definition. *)
Theorem damage_type_icons (tables : ManifestTables) (enumValue : Z) :
  (∀ url,
     extractDamageTypeIcons tables !! enumValue = Some url →
     ∃ key damageTypeDef path,
       tbl_DamageType tables !! key = Some damageTypeDef
       ∧ dmg_enumValue damageTypeDef = enumValue
       ∧ dmg_icon damageTypeDef = Some path
       ∧ path ≠ ""
       ∧ url = BUNGIE_NET +:+ path)
  ∧ (∀ key damageTypeDef path,
       tbl_DamageType tables !! key = Some damageTypeDef →
       dmg_enumValue damageTypeDef = enumValue →
       dmg_icon damageTypeDef = Some path →
       path ≠ "" →
       is_Some (extractDamageTypeIcons tables !! enumValue)).
Proof.
  set (f := λ damageTypeDef : DamageTypeDef,
    match dmg_icon damageTypeDef with
    | Some path =>
        if (String.length path =? 0)%nat then None
        else Some (dmg_enumValue damageTypeDef, BUNGIE_NET +:+ path)
    | None => None
    end).
  assert (Hstep : ∀ (m : gmap Z string) (damageTypeDef : DamageTypeDef),
    match prefixBungieOrNull (dmg_icon damageTypeDef) with
    | Some iconPath =>
        if truthyS (Some iconPath)
        then <[dmg_enumValue damageTypeDef := iconPath]> m else m
    | None => m
    end
    = match f damageTypeDef with Some (k, v) => <[k:=v]> m | None => m end).
  { intros m damageTypeDef. unfold f, prefixBungieOrNull.
    destruct (dmg_icon damageTypeDef) as [path|]; [|done].
    by destruct (String.length path =? 0)%nat. }
  split.
  - intros url Hlook. unfold extractDamageTypeIcons in Hlook.
    apply (fold_insert_lookup _ f _ _ _ _ Hstep) in Hlook
      as [Hempty|(damageTypeDef & Hin & Hf)]; [by rewrite lookup_empty in Hempty|].
    apply elem_of_Object_values in Hin as [key Hkey].
    unfold f in Hf. destruct (dmg_icon damageTypeDef) as [path|] eqn:Hicon; [|done].
    destruct path as [|c path]; [done|]. simpl in Hf. injection Hf as <- <-.
    by exists key, damageTypeDef, (String c path).
  - intros key damageTypeDef path Hkey Henum Hicon Hpath.
    unfold extractDamageTypeIcons.
    apply (fold_insert_is_Some _ f _ _ _ Hstep). right.
    exists damageTypeDef, (BUNGIE_NET +:+ path). split.
    + apply elem_of_Object_values. by exists key.
    + unfold f. rewrite Hicon, Henum. by destruct path.
Qed.

(** ** Socket and plug resolution, continued *)

Lemma array_at_elem_of {A} (l : list A) (i : Z) (x : A) :
  array_at l i = Some x → x ∈ l.
Proof.
  unfold array_at. repeat case_match; try done; apply list_elem_of_lookup_2.
Qed.

Lemma array_at_in_range {A} (l : list A) (i : Z) :
  (0 ≤ i < Z.of_nat (length l))%Z → is_Some (array_at l i).
Proof.
  intros [Hlo Hhi]. unfold array_at.
  rewrite (proj2 (Z.leb_le 0 i) Hlo). apply lookup_lt_is_Some. lia.
Qed.

(** X14. The sockets of a category are sockets of the item: an index that
    resolves to none is skipped, so there are at most as many sockets as
    indexes; an item without a socket block or without the category has no
    socket; and when every index of the category is within the socket
    entries, no socket is lost. *)
Theorem sockets_of_a_category (itemDef : ItemDef) (categoryHash : N) :
  (def_sockets itemDef = None → getSocketsByCategory itemDef categoryHash = [])
  ∧ ∀ socketData,
      def_sockets itemDef = Some socketData →
      Forall (λ socket, socket ∈ socketEntries socketData)
             (getSocketsByCategory itemDef categoryHash)
      ∧ (Forall (λ category, socketCategoryHash category ≠ categoryHash)
                (socketCategories socketData) →
         getSocketsByCategory itemDef categoryHash = [])
      ∧ ∀ category,
          List.find (λ c, (socketCategoryHash c =? categoryHash)%N)
                    (socketCategories socketData) = Some category →
          (length (getSocketsByCategory itemDef categoryHash)
           ≤ length (socketIndexes category))%nat
          ∧ (Forall (λ index,
                       (0 ≤ index < Z.of_nat (length (socketEntries socketData)))%Z)
                    (socketIndexes category) →
             length (getSocketsByCategory itemDef categoryHash)
             = length (socketIndexes category)).
Proof.
  rewrite getSocketsByCategory_eq. split; [by intros ->|].
  intros socketData ->. split; [|split].
  - destruct (List.find _ _) as [category|]; [|constructor].
    apply Forall_forall. intros socket [index [_ Hat]]%list_elem_of_omap.
    by eapply array_at_elem_of.
  - intros Hnone. destruct (List.find _ _) as [category|] eqn:Hfind; [|done].
    apply find_some in Hfind as [Hin Hhash].
    rewrite Forall_forall in Hnone. apply list_elem_of_In in Hin.
    apply N.eqb_eq in Hhash. by destruct (Hnone _ Hin).
  - intros category ->. split; [apply length_omap_le|].
    intros Hrange. apply length_omap_total.
    eapply Forall_impl; [exact Hrange|]. intros index. apply array_at_in_range.
Qed.

(** X15. Every intrinsic was built from a plug definition of the item
    table whose category hashes contain the origin-trait marker, and there
    are at most as many intrinsics as sockets in the weapon-perks category. *)
Theorem intrinsics_are_origin_traits (itemDef : ItemDef) (tables : ManifestTables) :
  Forall (builtFromOriginTrait tables) (getIntrinsics itemDef tables)
  ∧ (length (getIntrinsics itemDef tables)
     ≤ length (getSocketsByCategory itemDef SocketCategoryHashes.WeaponPerks))%nat.
Proof.
  set (f := λ socket : SocketEntry,
    if (singleInitialItemHash socket =? 0)%N then None
    else match tbl_InventoryItem tables !! jsString (singleInitialItemHash socket) with
         | None => None
         | Some plugDef =>
             if includes (default [] (def_itemCategoryHashes plugDef))
                         ItemCategoryHashes.WeaponModsOriginTraits
             then Some {| intr_hash := def_hash plugDef;
                          intr_name := dp_name (def_displayProperties plugDef);
                          intr_description :=
                            dp_description (def_displayProperties plugDef);
                          intr_iconSrc :=
                            prefixBungieOrNull (dp_icon (def_displayProperties plugDef)) |}
             else None
         end).
  assert (Heq : getIntrinsics itemDef tables
                = omap f (getSocketsByCategory itemDef SocketCategoryHashes.WeaponPerks)).
  { unfold getIntrinsics. rewrite (fold_left_push_ext _ f); [done|].
    intros acc socket. unfold f. destruct (_ =? 0)%N; [done|].
    destruct (tbl_InventoryItem tables !! _) as [plugDef|]; [|done].
    by destruct (includes _ _). }
  rewrite Heq. split; [|apply length_omap_le].
  apply Forall_forall. intros intrinsic [socket [_ Hf]]%list_elem_of_omap.
  unfold f in Hf. destruct (_ =? 0)%N; [done|].
  destruct (tbl_InventoryItem tables !! _) as [plugDef|] eqn:Hlook; [|done].
  destruct (includes _ _) eqn:Hcat; [|done]. injection Hf as <-.
  exists (jsString (singleInitialItemHash socket)), plugDef.
  split; [done|]. split; [by apply includes_true|]. done.
Qed.

(** A predicate that holds of every perk the direct list can create holds
    of every perk of its column. *)
Lemma getPerksFromReusablePlugItems_Forall (P : Perk → Prop)
    (socket : SocketEntry) (tables : ManifestTables) :
  (∀ plugDef flag,
     P (createPerk plugDef {| opt_isCurated := flag;
                              opt_curatedExclusive := false;
                              opt_isDeprecated := false |})) →
  Forall P (getPerksFromReusablePlugItems socket tables).
Proof.
  intros HP. unfold getPerksFromReusablePlugItems.
  assert (Hloop : ∀ l perks seenHashes,
    Forall P perks →
    Forall P (fold_left
      (λ '(perks, seenHashes) plug,
         match tbl_InventoryItem tables !! jsString (plugItemHash plug) with
         | None => (perks, seenHashes)
         | Some plugDef =>
             if negb (isValidPerk plugDef) then (perks, seenHashes)
             else if includes seenHashes (def_hash plugDef) then (perks, seenHashes)
             else (perks ++
                     [createPerk plugDef
                        {| opt_isCurated :=
                             (plugItemHash plug =? singleInitialItemHash socket)%N;
                           opt_curatedExclusive := false;
                           opt_isDeprecated := false |}],
                   set_add seenHashes (def_hash plugDef))
         end)
      l (perks, seenHashes)).1).
  { induction l as [|plug l IH]; intros perks seenHashes Hperks; simpl; [done|].
    destruct (tbl_InventoryItem tables !! _) as [plugDef|]; [|by apply IH].
    destruct (isValidPerk plugDef); simpl; [|by apply IH].
    destruct (includes seenHashes (def_hash plugDef)); [by apply IH|].
    apply IH. apply Forall_app. split; [done|]. by repeat constructor. }
  apply Hloop. constructor.
Qed.

Lemma getPerks_Forall (P : Perk → Prop) (tables : ManifestTables) :
  (∀ socket plugSet, Forall P (getPerksFromPlugSet socket plugSet tables)) →
  (∀ socket, Forall P (getPerksFromReusablePlugItems socket tables)) →
  (∀ socket perk, getFixedPerk socket tables = Some perk → P perk) →
  ∀ itemDef, Forall (Forall P) (getPerks itemDef tables).
Proof.
  intros Hset Hlist Hfixed itemDef. rewrite getPerks_eq. apply Forall_forall.
  intros column [socket [_ Hcol]]%list_elem_of_omap. unfold perkColumnOf in Hcol.
  destruct (socketTypeHash socket =? _)%N; [done|].
  destruct (plugSetHashOf socket) as [h|].
  - destruct (tbl_PlugSet tables !! jsString h) as [plugSet|]; [|done].
    simpl in Hcol. destruct (0 <? length _)%nat; [|done].
    injection Hcol as <-. apply Hset.
  - destruct (0 <? length (reusablePlugItems socket))%nat.
    + simpl in Hcol. destruct (0 <? length _)%nat; [|done].
      injection Hcol as <-. apply Hlist.
    + destruct (getFixedPerk socket tables) as [perk|] eqn:Hperk; [|done].
      injection Hcol as <-. repeat constructor. by eapply Hfixed.
Qed.

(** X16. The flags of every perk of every column are coherent: a perk
    marked curated-exclusive is marked curated and is not marked deprecated.
    A column built from the socket's own list has no curated-exclusive and no
    deprecated perk, and a single fixed perk is curated and curated-exclusive. *)
Theorem perk_flags_are_coherent (tables : ManifestTables) :
  (∀ itemDef, Forall (Forall coherentFlags) (getPerks itemDef tables))
  ∧ (∀ d2aiData,
       Forall (λ weaponFull, Forall (Forall coherentFlags) (wf_perks weaponFull))
              (full (transformWeapons tables d2aiData)))
  ∧ (∀ socket,
       Forall (λ perk, curatedExclusive perk = false ∧ isDeprecated perk = false)
              (getPerksFromReusablePlugItems socket tables))
  ∧ (∀ socket perk,
       getFixedPerk socket tables = Some perk →
       isCurated perk = true ∧ curatedExclusive perk = true
       ∧ isDeprecated perk = false).
Proof.
  assert (Hfixed : ∀ socket perk,
    getFixedPerk socket tables = Some perk →
    isCurated perk = true ∧ curatedExclusive perk = true ∧ isDeprecated perk = false).
  { intros socket perk. unfold getFixedPerk. destruct (_ =? 0)%N; [done|].
    destruct (tbl_InventoryItem tables !! _) as [plugDef|]; [|done].
    destruct (isValidPerk plugDef); [|done]. by intros [= <-]. }
  assert (Hcolumns : ∀ itemDef, Forall (Forall coherentFlags) (getPerks itemDef tables)).
  { apply getPerks_Forall.
    - intros socket plugSet. rewrite getPerksFromPlugSet_eq. apply Forall_app. split.
      + apply Forall_forall. intros perk [plug [_ Hperk]]%list_elem_of_omap.
        unfold poolPerkOf in Hperk.
        destruct (tbl_InventoryItem tables !! _) as [plugDef|]; [|done].
        destruct (isValidPerk plugDef); [|done]. injection Hperk as <-. by intros [=].
      + apply Forall_forall. intros perk [h [_ Hperk]]%list_elem_of_omap.
        unfold exclusivePerkOf in Hperk.
        destruct (tbl_InventoryItem tables !! _) as [plugDef|]; [|done].
        destruct (isValidPerk plugDef); [|done]. by injection Hperk as <-.
    - intros socket. apply getPerksFromReusablePlugItems_Forall.
      by intros plugDef flag [=].
    - intros socket perk Hperk _. by destruct (Hfixed _ _ Hperk) as (? & _ & ?). }
  split; [done|]. split; [|split; [|done]].
  - intros d2aiData. apply Forall_forall.
    intros weaponFull (item & _ & Hbuild)%elem_of_full.
    apply buildWeaponFull_Returned in Hbuild as (_ & _ & _ & _ & ->). apply Hcolumns.
  - intros socket. by apply getPerksFromReusablePlugItems_Forall.
Qed.

(** X17. A tracker socket contributes no perk column: there are at most as
    many columns as sockets of the weapon-perks category that are not
    trackers, and none when all of them are trackers. *)
Theorem trackers_contribute_no_column (itemDef : ItemDef) (tables : ManifestTables) :
  let sockets := getSocketsByCategory itemDef SocketCategoryHashes.WeaponPerks in
  getPerks itemDef tables
  = omap (λ socket, perkColumnOf socket tables)
         (List.filter (λ socket, negb (isTracker socket)) sockets)
  ∧ (length (getPerks itemDef tables)
     ≤ length (List.filter (λ socket, negb (isTracker socket)) sockets))%nat
  ∧ (Forall (λ socket, socketTypeHash socket = SocketTypeHashes.Tracker) sockets →
     getPerks itemDef tables = []).
Proof.
  intros sockets.
  assert (Heq : getPerks itemDef tables
                = omap (λ socket, perkColumnOf socket tables)
                       (List.filter (λ socket, negb (isTracker socket)) sockets)).
  { rewrite getPerks_eq. fold sockets. rewrite <- omap_filter_negb.
    induction sockets as [|socket l IH]; csimpl; [done|].
    rewrite IH. destruct (isTracker socket) eqn:Htracker; [|done].
    unfold perkColumnOf. unfold isTracker in Htracker. by rewrite Htracker. }
  split; [done|]. split; [rewrite Heq; apply length_omap_le|].
  intros Hall. rewrite Heq.
  replace (List.filter (λ socket, negb (isTracker socket)) sockets) with (@nil SocketEntry);
    [done|].
  clear Heq. induction Hall as [|socket l Htracker _ IH]; simpl; [done|].
  unfold isTracker at 1. rewrite Htracker, N.eqb_refl. simpl. exact IH.
Qed.

Lemma omap_key_sublist {A B C} (f : A → option B) (g : B → C) (h : A → C)
    (l : list A) :
  (∀ x y, f x = Some y → g y = h x) →
  (g <$> omap f l) `sublist_of` (h <$> l).
Proof.
  intros Hkey. induction l as [|x l IH]; csimpl; [constructor|].
  destruct (f x) as [y|] eqn:Hfx; csimpl.
  - rewrite (Hkey _ _ Hfx). by apply sublist_skip.
  - by apply sublist_cons.
Qed.

Lemma NoDup_curatedOutsidePool (socket : SocketEntry) (plugSet : PlugSetDef) :
  NoDup (curatedOutsidePool socket plugSet).
Proof.
  unfold curatedOutsidePool.
  generalize (NoDup_firstOccurrences (plugItemHash <$> reusablePlugItems socket) []).
  generalize (firstOccurrences [] (plugItemHash <$> reusablePlugItems socket)).
  intros l. induction 1 as [|x l Hx _ IH]; simpl; [constructor|].
  destruct (negb _); [|done]. constructor; [|done].
  intros [Hin _]%list_elem_of_In%filter_In. by apply Hx, list_elem_of_In.
Qed.

(** X18. In a manifest whose item table files every definition under its
    own hash and whose plug sets list no plug twice, no column of any weapon
    carries a plug hash twice. *)
Theorem columns_have_no_duplicate (tables : ManifestTables) :
  keyedByHash tables →
  (∀ key plugSet, tbl_PlugSet tables !! key = Some plugSet → poolNoDup plugSet) →
  ∀ itemDef,
    Forall (λ column, NoDup (perk_hash <$> column)) (getPerks itemDef tables).
Proof.
  intros Hkeyed Hpools itemDef.
  assert (Hhash : ∀ h plugDef,
    tbl_InventoryItem tables !! jsString h = Some plugDef → def_hash plugDef = h).
  { intros h plugDef Hlook. symmetry. by apply jsString_inj, Hkeyed. }
  rewrite getPerks_eq. apply Forall_forall.
  intros column [socket [_ Hcol]]%list_elem_of_omap. unfold perkColumnOf in Hcol.
  destruct (socketTypeHash socket =? _)%N; [done|].
  destruct (plugSetHashOf socket) as [h|].
  - destruct (tbl_PlugSet tables !! jsString h) as [plugSet|] eqn:Hset; [|done].
    simpl in Hcol. destruct (0 <? length _)%nat; [|done]. injection Hcol as <-.
    rewrite getPerksFromPlugSet_eq, fmap_app.
    assert (Hpool :
      (perk_hash <$> omap (poolPerkOf socket tables) (pool_reusablePlugItems plugSet))
        `sublist_of` (pool_plugItemHash <$> pool_reusablePlugItems plugSet)).
    { apply omap_key_sublist. intros plug perk. unfold poolPerkOf.
      destruct (tbl_InventoryItem tables !! _) as [plugDef|] eqn:Hlook; [|done].
      destruct (isValidPerk plugDef); [|done]. intros [= <-]. simpl.
      by apply Hhash. }
    assert (Hexcl :
      (perk_hash <$> omap (exclusivePerkOf tables) (curatedOutsidePool socket plugSet))
        `sublist_of` (id <$> curatedOutsidePool socket plugSet)).
    { apply omap_key_sublist. intros curatedHash perk. unfold exclusivePerkOf.
      destruct (tbl_InventoryItem tables !! _) as [plugDef|] eqn:Hlook; [|done].
      destruct (isValidPerk plugDef); [|done]. intros [= <-]. simpl.
      by apply Hhash. }
    rewrite list_fmap_id in Hexcl. apply NoDup_app. split; [|split].
    + eapply sublist_NoDup; [|exact Hpool]. by eapply Hpools.
    + intros x Hin1 Hin2.
      pose proof (elem_of_sublist _ _ _ Hin1 Hpool) as Hinpool.
      pose proof (elem_of_sublist _ _ _ Hin2 Hexcl) as Hout.
      unfold curatedOutsidePool in Hout.
      apply list_elem_of_In, filter_In in Hout as [_ Hout].
      apply negb_true_iff, includes_false in Hout. done.
    + eapply sublist_NoDup; [|exact Hexcl]. apply NoDup_curatedOutsidePool.
  - destruct (0 <? length (reusablePlugItems socket))%nat.
    + simpl in Hcol. destruct (0 <? length _)%nat; [|done]. injection Hcol as <-.
      apply getPerksFromReusablePlugItems_NoDup.
    + destruct (getFixedPerk socket tables) as [perk|]; [|done].
      injection Hcol as <-. apply NoDup_singleton.
Qed.

Lemma columns_have_no_duplicate_witness :
  keyedByHash SampleClean.tables
  ∧ (∀ key plugSet,
       tbl_PlugSet SampleClean.tables !! key = Some plugSet → poolNoDup plugSet)
  ∧ ∀ itemDef,
      Forall (λ column, NoDup (perk_hash <$> column))
             (getPerks itemDef SampleClean.tables).
Proof.
  assert (Hkeyed : keyedByHash SampleClean.tables).
  { intros key plugDef.
    apply (map_Forall_lookup_1 (λ k d, k = jsString (def_hash d))).
    assert (Hdec : bool_decide
              (map_Forall (λ (k : string) (d : ItemDef), k = jsString (def_hash d))
                          (tbl_InventoryItem SampleClean.tables)))
      by (vm_compute; exact I).
    exact (bool_decide_unpack _ Hdec). }
  assert (Hpools : ∀ key plugSet,
    tbl_PlugSet SampleClean.tables !! key = Some plugSet → poolNoDup plugSet).
  { intros key plugSet.
    apply (map_Forall_lookup_1 (λ _ p, poolNoDup p)).
    assert (Hdec : bool_decide
              (map_Forall (λ (_ : string) (p : PlugSetDef),
                             NoDup (pool_plugItemHash <$> pool_reusablePlugItems p))
                          (tbl_PlugSet SampleClean.tables)))
      by (vm_compute; exact I).
    exact (bool_decide_unpack _ Hdec). }
  split; [exact Hkeyed|]. split; [exact Hpools|].
  exact (columns_have_no_duplicate SampleClean.tables Hkeyed Hpools).
Defined.

(** ** Readers of the persisted records *)

Lemma max_season_loop (weapons : list WeaponConcise) (start : Z) :
  let result :=
    fold_left
      (λ max weapon,
         match wc_season weapon with
         | Some season => if (max <? season)%Z then season else max
         | None => max
         end)
      weapons start in
  (start ≤ result)%Z
  ∧ (∀ weapon season,
       weapon ∈ weapons → wc_season weapon = Some season → (season ≤ result)%Z)
  ∧ (result = start
     ∨ ∃ weapon, weapon ∈ weapons ∧ wc_season weapon = Some result).
Proof.
  revert start. induction weapons as [|x l IH]; intros start; simpl.
  - split; [lia|]. split; [|by left]. intros weapon season Hin.
    by apply elem_of_nil in Hin.
  - set (next := match wc_season x with
                 | Some season => if (start <? season)%Z then season else start
                 | None => start
                 end).
    destruct (IH next) as (Hle & Hall & Hmax).
    assert (Hnext : (start ≤ next)%Z
                    ∧ (∀ season, wc_season x = Some season → (season ≤ next)%Z)
                    ∧ (next = start ∨ wc_season x = Some next)).
    { subst next. destruct (wc_season x) as [s|];
        [|split; [lia|split; [done|by left]]].
      destruct (Z.ltb_spec start s).
      - split; [lia|]. split; [by intros ? [= <-]|by right].
      - split; [lia|]. split; [intros ? [= <-]; lia|by left]. }
    destruct Hnext as (Hstart & Hx & Hnext).
    split; [lia|]. split.
    + intros weapon season [->|Hin]%elem_of_cons Hseason.
      * specialize (Hx _ Hseason). lia.
      * by eapply Hall.
    + destruct Hmax as [Heq|(weapon & Hin & Hseason)].
      * destruct Hnext as [Hs|Hs].
        -- left. lia.
        -- right. exists x. split; [constructor|]. by rewrite Heq.
      * right. exists weapon. split; [by constructor|done].
Qed.

(** X19. [useMaxSeason] answers a number that is at least 0 and at least
    the season of every stored concise record, and that is 0 or the season
    of a stored record: the greatest season, or 0 when no record has a
    positive season. It does not change the store. *)
Theorem useMaxSeason_is_greatest (w : World) :
  ∃ max,
    useMaxSeason w = (Some max, w)
    ∧ (0 ≤ max)%Z
    ∧ (∀ hash weapon season,
         db_weaponsConcise (db w) !! hash = Some weapon →
         wc_season weapon = Some season → (season ≤ max)%Z)
    ∧ (max = 0%Z
       ∨ ∃ hash weapon,
           db_weaponsConcise (db w) !! hash = Some weapon
           ∧ wc_season weapon = Some max).
Proof.
  eexists. split; [reflexivity|].
  destruct (max_season_loop (map_to_list (db_weaponsConcise (db w))).*2 0%Z)
    as (Hle & Hall & Hmax).
  split; [exact Hle|]. split.
  - intros hash weapon season Hlook Hseason. eapply Hall; [|exact Hseason].
    apply list_elem_of_fmap. exists (hash, weapon). split; [done|].
    by apply elem_of_map_to_list.
  - destruct Hmax as [Heq|(weapon & Hin & Hseason)]; [by left|]. right.
    apply list_elem_of_fmap in Hin as [[hash weapon'] [-> Hin]].
    apply elem_of_map_to_list in Hin. by exists hash, weapon'.
Qed.

(** X20. [fetchManifestTables] never touches the store and issues one
    request per table that has a non-empty path. It rejects as soon as one of
    the six tables has no path or an empty one, and when it fulfils it has
    issued the six requests, one per table name and in their order. *)
Theorem fetchManifestTables_needs_every_path (net : Network)
    (paths : gmap string string) (w : World) :
  (fetchManifestTables net paths w).2
  = {| db := db w; requests := requests w ++ tableRequests paths |}
  ∧ (∀ tableName,
       tableName ∈ tableNames →
       paths !! tableName = None ∨ paths !! tableName = Some "" →
       (fetchManifestTables net paths w).1 = None)
  ∧ (is_Some (fetchManifestTables net paths w).1 →
     tableRequests paths
     = (λ tableName,
          TableFetch tableName (BUNGIE_NET +:+ default "" (paths !! tableName)))
         <$> tableNames).
Proof.
  rewrite fetchManifestTables_run. cbn [fst snd]. split; [done|]. split.
  - intros tableName Hin Hpath.
    assert (Hnone : ∀ T (respond : string → option T),
              tableAnswer respond paths tableName = None).
    { intros T respond. unfold tableAnswer. by destruct Hpath as [->| ->]. }
    unfold tablesAnswer, tableNames in *.
    repeat (apply elem_of_cons in Hin as [->|Hin]);
      [..|by apply elem_of_nil in Hin];
      rewrite Hnone; repeat case_match; done.
  - intros [tables Htables].
    assert (Hpath : ∀ T (respond : string → option T) tableName,
              is_Some (tableAnswer respond paths tableName) →
              tableRequest paths tableName
              = [TableFetch tableName (BUNGIE_NET +:+ default "" (paths !! tableName))]).
    { intros T respond tableName. unfold tableAnswer, tableRequest.
      destruct (paths !! tableName) as [path|]; [|by intros [? ?]].
      destruct (String.eqb path ""); [by intros [? ?]|done]. }
    unfold tablesAnswer in Htables. unfold tableRequests, tableNames.
    cbn [mbind list_bind fmap list_fmap].
    destruct (tableAnswer (net_InventoryItem net) paths _) eqn:H1; [|done].
    destruct (tableAnswer (net_PlugSet net) paths _) eqn:H2; [|done].
    destruct (tableAnswer (net_Collectible net) paths _) eqn:H3; [|done].
    destruct (tableAnswer (net_DamageType net) paths _) eqn:H4; [|done].
    destruct (tableAnswer (net_SocketType net) paths _) eqn:H5; [|done].
    destruct (tableAnswer (net_SocketCategory net) paths _) eqn:H6; [|done].
    rewrite (Hpath _ (net_InventoryItem net)) by (rewrite H1; eauto).
    rewrite (Hpath _ (net_PlugSet net)) by (rewrite H2; eauto).
    rewrite (Hpath _ (net_Collectible net)) by (rewrite H3; eauto).
    rewrite (Hpath _ (net_DamageType net)) by (rewrite H4; eauto).
    rewrite (Hpath _ (net_SocketType net)) by (rewrite H5; eauto).
    rewrite (Hpath _ (net_SocketCategory net)) by (rewrite H6; eauto).
    reflexivity.
Qed.

(** ** Display helpers *)

(** X21. With a name comparison that is antisymmetric, [compareWeapons] is
    antisymmetric; it puts the weapon of the later season first, a weapon
    without a season after every weapon of a season of 0 or more, and, within
    a season, the weapon of the higher tier order first. *)
Theorem compareWeapons_order (localeCompare : string → string → Z) :
  (∀ x y, localeCompare x y = (- localeCompare y x)%Z) →
  (∀ a b, compareWeapons localeCompare a b = (- compareWeapons localeCompare b a)%Z)
  ∧ (∀ a b,
       (default (-1) (wc_season b) < default (-1) (wc_season a))%Z →
       (compareWeapons localeCompare a b < 0)%Z)
  ∧ (∀ a b season,
       wc_season a = Some season → (0 ≤ season)%Z → wc_season b = None →
       (compareWeapons localeCompare a b < 0)%Z)
  ∧ (∀ a b,
       wc_season a = wc_season b →
       (default 0 (TIER_TYPE_SORT_ORDER !! wc_tierType b)
        < default 0 (TIER_TYPE_SORT_ORDER !! wc_tierType a))%Z →
       (compareWeapons localeCompare a b < 0)%Z).
Proof.
  intros Hanti.
  assert (Hseason : ∀ a b,
    (default (-1) (wc_season b) < default (-1) (wc_season a))%Z →
    (compareWeapons localeCompare a b < 0)%Z).
  { intros a b Hlt. unfold compareWeapons.
    destruct (Z.eqb_spec (default (-1)%Z (wc_season a))
                         (default (-1)%Z (wc_season b))); simpl; lia. }
  split; [|split; [done|split]].
  - intros a b. unfold compareWeapons.
    destruct (Z.eqb_spec (default (-1)%Z (wc_season a))
                         (default (-1)%Z (wc_season b))) as [Hs|Hs];
      destruct (Z.eqb_spec (default (-1)%Z (wc_season b))
                           (default (-1)%Z (wc_season a))); simpl; try lia.
    destruct (Z.eqb_spec (default 0%Z (TIER_TYPE_SORT_ORDER !! wc_tierType a))
                         (default 0%Z (TIER_TYPE_SORT_ORDER !! wc_tierType b)));
      destruct (Z.eqb_spec (default 0%Z (TIER_TYPE_SORT_ORDER !! wc_tierType b))
                           (default 0%Z (TIER_TYPE_SORT_ORDER !! wc_tierType a)));
      simpl; try lia.
    apply Hanti.
  - intros a b season Ha Hpos Hb. apply Hseason. rewrite Ha, Hb. simpl. lia.
  - intros a b Hsame Htier. unfold compareWeapons. rewrite Hsame, Z.eqb_refl. simpl.
    destruct (Z.eqb_spec (default 0%Z (TIER_TYPE_SORT_ORDER !! wc_tierType a))
                         (default 0%Z (TIER_TYPE_SORT_ORDER !! wc_tierType b)));
      simpl; lia.
Qed.

Lemma compareWeapons_order_witness :
  (∀ x y, SampleClean.codeUnitCompare x y = (- SampleClean.codeUnitCompare y x)%Z)
  ∧ (∀ a b, compareWeapons SampleClean.codeUnitCompare a b
            = (- compareWeapons SampleClean.codeUnitCompare b a)%Z)
  ∧ (∀ a b,
       (default (-1) (wc_season b) < default (-1) (wc_season a))%Z →
       (compareWeapons SampleClean.codeUnitCompare a b < 0)%Z)
  ∧ (∀ a b season,
       wc_season a = Some season → (0 ≤ season)%Z → wc_season b = None →
       (compareWeapons SampleClean.codeUnitCompare a b < 0)%Z)
  ∧ (∀ a b,
       wc_season a = wc_season b →
       (default 0 (TIER_TYPE_SORT_ORDER !! wc_tierType b)
        < default 0 (TIER_TYPE_SORT_ORDER !! wc_tierType a))%Z →
       (compareWeapons SampleClean.codeUnitCompare a b < 0)%Z).
Proof.
  assert (Hanti : ∀ x y,
    SampleClean.codeUnitCompare x y = (- SampleClean.codeUnitCompare y x)%Z).
  { intros x y. unfold SampleClean.codeUnitCompare.
    rewrite (String.compare_antisym x y). by destruct (String.compare y x). }
  split; [exact Hanti|].
  exact (compareWeapons_order SampleClean.codeUnitCompare Hanti).
Defined.

(** X22. [formatSeason] gives different labels to different seasons: the
    label determines whether there is a season and which one. *)
Theorem formatSeason_inj (season season' : option Z) :
  formatSeason season = formatSeason season' → season = season'.
Proof.
  unfold formatSeason.
  destruct season as [s|], season' as [s'|]; [|by destruct (s =? 0)%Z
                                              |by destruct (s' =? 0)%Z|done].
  destruct (Z.eqb_spec s 0) as [->|Hs], (Z.eqb_spec s' 0) as [->|Hs'];
    [done|done|done|].
  simpl. intros [= Heq]. f_equal. by apply pretty_Z_inj.
Qed.

Lemma formatSeason_inj_witness :
  formatSeason (Some 23%Z) = formatSeason (Some (20 + 3)%Z)
  ∧ Some 23%Z = Some (20 + 3)%Z.
Proof.
  split; [reflexivity|].
  apply (formatSeason_inj (Some 23%Z) (Some (20 + 3)%Z)). reflexivity.
Defined.
